(** * demo-builder: the route application engine, its keyed data store,
      loopback client and database attachment

    A shallow embedding of the module [./internal] that [src/main.ts]
    imports [apply] from.

    Conventions of the embedding.
    - JavaScript values are the inductive [value].  Numbers are the doubles
      of the platform ([float]); objects are plain objects with data
      fields, errors, promises, [Object.prototype] and its function members.
      Arrays, user functions as values and accessors are not in it: a closure
      or a handler is a function of the embedding.
    - [cfg.data] is an object used as a dictionary: its own properties, a
      [gmap] from property names to values, and its prototype, through which
      it is read and which an assignment to [__proto__] replaces.  [data !! k]
      is the own property [k], [<[k := v]> data] defines it, and [∅] is [{}].
      The properties are data properties that can be written, and the
      dictionary can be given new ones.
    - A promise carries the way it will settle, if it does; the moment at
      which it settles is made explicit where the code depends on it.
    - Calls into collaborators (express' [res] and [app], [console], sqlite,
      the global [fetch]) are recorded as events or taken from an oracle. *)

From Stdlib Require Import ZArith String List Lia QArith Qround.
From Stdlib Require Import Floats.PrimFloat Floats.SpecFloat Floats.FloatOps.
From stdpp Require Import base option list gmap strings pretty.

(** ** JavaScript values *)

#[warnings="-register-all"]
Inductive value : Type :=
  | VUndefined
  | VNull
  | VBool (b : bool)
  | VNum (x : float)
  | VStr (s : string)
  | VSymbol (description : string)
  | VError (name message : string)
  | VObject (fields : list (string * value))
  | VPromise (fate : settled)
  | VNative (name : string)
  | VObjectPrototype
with settled : Type :=
  | Fulfilled (v : value)
  | Rejected (reason : value)
  | Pending.

(** How a call completes: with a value, by throwing, or not at all. *)
Inductive completion (A : Type) : Type :=
  | Normal (a : A)
  | Throw (e : value)
  | Never.
Arguments Normal {A} a.
Arguments Throw {A} e.
Arguments Never {A}.

(** ** [Number::toString] *)

Module Number.

Definition pow10 (z : Z) : Q := Qpower (inject_Z 10) z.
Definition pow2 (z : Z) : Q := Qpower (inject_Z 2) z.
Definition Qltb (a b : Q) : bool := negb (Qle_bool b a).

(** The [n] with [10 ^ (n - 1) <= v < 10 ^ n], from a first guess. *)
Fixpoint adjust (fuel : nat) (v : Q) (n : Z) : Z :=
  match fuel with
  | O => n
  | S fuel' =>
      if Qle_bool (pow10 n) v then adjust fuel' v (n + 1)
      else if Qltb v (pow10 (n - 1)) then adjust fuel' v (n - 1)
      else n
  end.

Definition point (m : positive) (e : Z) : Z :=
  let v := (inject_Z (Zpos m) * pow2 e)%Q in
  adjust 4 v ((Z.log2 (Zpos m) + e) * 30103 / 100000 + 1).

(** The shortest decimal [s * 10 ^ (n - k)] that reads back as the double
    [m * 2 ^ e], the closest to it among those with [k] digits, tried for
    [k], [k + 1], ...: its digits [s] and the position [n] of its point. *)
Fixpoint digits (fuel : nat) (k : Z) (m : positive) (e n : Z) : Z * Z :=
  let v := (inject_Z (Zpos m) * pow2 e)%Q in
  let hi := (inject_Z (2 * Zpos m + 1) * pow2 (e - 1))%Q in
  let lo := if (Zpos m =? 2 ^ 52)%Z && (-1074 <? e)%Z
            then (inject_Z (4 * Zpos m - 1) * pow2 (e - 2))%Q
            else (inject_Z (2 * Zpos m - 1) * pow2 (e - 1))%Q in
  let inside (q : Q) :=
    if Z.even (Zpos m) then Qle_bool lo q && Qle_bool q hi
    else Qltb lo q && Qltb q hi in
  let t := (v / pow10 (n - k))%Q in
  let s0 := Qfloor t in
  let s1 := (s0 + 1)%Z in
  let ok0 := inside (inject_Z s0 * pow10 (n - k))%Q in
  let ok1 := inside (inject_Z s1 * pow10 (n - k))%Q in
  let d0 := (t - inject_Z s0)%Q in
  let d1 := (inject_Z s1 - t)%Q in
  let pick (s : Z) := if (s =? 10 ^ k)%Z then (1%Z, (n + 1)%Z) else (s, n) in
  match fuel with
  | O => (s0, n)
  | S fuel' =>
      if ok0 && ok1 then
        if Qltb d0 d1 then pick s0
        else if Qltb d1 d0 then pick s1
        else if Z.even s0 then pick s0 else pick s1
      else if ok0 then pick s0
      else if ok1 then pick s1
      else digits fuel' (k + 1)%Z m e n
  end.

Fixpoint zeros (n : nat) : string :=
  match n with
  | O => ""
  | S n' => "0" +:+ zeros n'
  end.

Definition exponent (z : Z) : string :=
  if (0 <=? z)%Z then "e+" +:+ pretty z else "e" +:+ pretty z.

(** The text of the number with decimal digits [ds] and its point after
    [n] of them. *)
Definition layout (ds : string) (n : Z) : string :=
  let k := Z.of_nat (String.length ds) in
  if (k <=? n)%Z && (n <=? 21)%Z then ds +:+ zeros (Z.to_nat (n - k))
  else if (0 <? n)%Z && (n <=? 21)%Z then
    String.substring 0 (Z.to_nat n) ds +:+ "."
    +:+ String.substring (Z.to_nat n) (Z.to_nat (k - n)) ds
  else if (-6 <? n)%Z && (n <=? 0)%Z then "0." +:+ zeros (Z.to_nat (- n)) +:+ ds
  else if (k =? 1)%Z then ds +:+ exponent (n - 1)
  else String.substring 0 1 ds +:+ "."
       +:+ String.substring 1 (Z.to_nat (k - 1)) ds +:+ exponent (n - 1).

Definition to_string (x : float) : string :=
  match Prim2SF x with
  | S754_zero _ => "0"
  | S754_infinity false => "Infinity"
  | S754_infinity true => "-Infinity"
  | S754_nan => "NaN"
  | S754_finite sign m e =>
      let '(s, n) := digits 17 1 m e (point m e) in
      (if sign then "-" else "") +:+ layout (pretty s) n
  end.

End Number.

Module Js.

(** [typeof v] *)
Definition typeof (v : value) : string :=
  match v with
  | VUndefined => "undefined"
  | VBool _ => "boolean"
  | VNum _ => "number"
  | VStr _ => "string"
  | VSymbol _ => "symbol"
  | VNative _ => "function"
  | VNull | VError _ _ | VObject _ | VPromise _ | VObjectPrototype => "object"
  end.

(** [v instanceof Promise] *)
Definition instanceof_Promise (v : value) : bool :=
  match v with VPromise _ => true | _ => false end.

Definition is_object (v : value) : bool :=
  match v with
  | VError _ _ | VObject _ | VPromise _ | VNative _ | VObjectPrototype => true
  | _ => false
  end.

Definition is_null (v : value) : bool :=
  match v with VNull => true | _ => false end.

Definition is_string (v : value) : bool :=
  match v with VStr _ => true | _ => false end.

(** Truthiness, as tested by [if (v)] and [v || w]: a number is truthy
    when it is below or above 0, which 0, -0 and NaN are not. *)
Definition truthy (v : value) : bool :=
  match v with
  | VUndefined | VNull => false
  | VBool b => b
  | VNum x => (x <? 0)%float || (0 <? x)%float
  | VStr s => negb (String.eqb s "")
  | VSymbol _ | VError _ _ | VObject _ | VPromise _ | VNative _
  | VObjectPrototype => true
  end.

(** [a || b] *)
Definition or_else (a b : value) : value := if truthy a then a else b.

Definition number_to_string (x : float) : string := Number.to_string x.

Definition type_error (message : string) : value := VError "TypeError" message.

(** [Error.prototype.toString] *)
Definition error_to_string (name message : string) : string :=
  if String.eqb name "" then message
  else if String.eqb message "" then name
  else name +:+ ": " +:+ message.

(** The function members of [Object.prototype]. *)
Definition natives : list string :=
  ["constructor"; "toString"; "toLocaleString"; "valueOf"; "hasOwnProperty";
   "isPrototypeOf"; "propertyIsEnumerable"; "__defineGetter__";
   "__defineSetter__"; "__lookupGetter__"; "__lookupSetter__"].

(** [Object.prototype[key]] *)
Definition object_prototype_member (key : string) : value :=
  if existsb (String.eqb key) natives then VNative key
  else if String.eqb key "__proto__" then VNull
  else VUndefined.

(** The own field [key] of a plain object. *)
Fixpoint field (key : string) (fields : list (string * value)) : option value :=
  match fields with
  | [] => None
  | (name, v) :: rest => if String.eqb key name then Some v else field key rest
  end.

(** The number of parameters of a function member. *)
Definition arity (name : string) : float :=
  if existsb (String.eqb name)
       ["toString"; "toLocaleString"; "valueOf"] then 0%float
  else if existsb (String.eqb name)
       ["__defineGetter__"; "__defineSetter__"; "then"; "apply"] then 2%float
  else 1%float.

(** [p[key]] for a value [p]: own members, then inherited ones.  Of a
    function, [caller] and [arguments], which cannot be read, and the static
    members of [Object] are left out. *)
Definition get (p : value) (key : string) : value :=
  match p with
  | VObject fields =>
      match field key fields with
      | Some v => v
      | None =>
          if String.eqb key "__proto__" then VObjectPrototype
          else object_prototype_member key
      end
  | VObjectPrototype => object_prototype_member key
  | VError name message =>
      if String.eqb key "message" then VStr message
      else if String.eqb key "name" then VStr name
      else if String.eqb key "stack" then VStr (error_to_string name message)
      else if String.eqb key "__proto__" then VObjectPrototype
      else object_prototype_member key
  | VPromise _ =>
      if String.eqb key "then" || String.eqb key "catch" || String.eqb key "finally"
      then VNative key
      else if String.eqb key "__proto__" then VObjectPrototype
      else object_prototype_member key
  | VNative name =>
      if String.eqb key "name"
      then VStr (if String.eqb name "constructor" then "Object" else name)
      else if String.eqb key "length" then VNum (arity name)
      else if String.eqb key "call" || String.eqb key "apply" || String.eqb key "bind"
      then VNative key
      else if String.eqb key "__proto__" then VObjectPrototype
      else object_prototype_member key
  | _ => VUndefined
  end.

(** The text of a function member of [Object.prototype]. *)
Definition native_source (name : string) : string :=
  "function " +:+ (if String.eqb name "constructor" then "Object" else name)
  +:+ "() { [native code] }".

(** A function member of [Object.prototype] other than [toLocaleString],
    called without arguments on the plain object with these fields. *)
Definition call_basic (name : string) (fields : list (string * value))
    : completion value :=
  if String.eqb name "toString" then Normal (VStr "[object Object]")
  else if String.eqb name "valueOf" then Normal (VObject fields)
  else if String.eqb name "hasOwnProperty" || String.eqb name "propertyIsEnumerable"
  then Normal (VBool (bool_decide (is_Some (field "undefined" fields))))
  else if String.eqb name "isPrototypeOf" then Normal (VBool false)
  else if String.eqb name "constructor" then Normal (VObject [])
  else if String.eqb name "__lookupGetter__" || String.eqb name "__lookupSetter__"
  then Normal VUndefined
  else if String.eqb name "__defineGetter__" || String.eqb name "__defineSetter__"
  then Throw (type_error "Object.prototype.__defineGetter__: Expecting function")
  else Throw (type_error (name +:+ " is not a function")).

(** [toLocaleString] calls [this.toString()]. *)
Definition call_native (name : string) (fields : list (string * value))
    : completion value :=
  if String.eqb name "toLocaleString" then
    match get (VObject fields) "toString" with
    | VNative f =>
        if String.eqb f "toLocaleString"
        then Throw (VError "RangeError" "Maximum call stack size exceeded")
        else call_basic f fields
    | _ => Throw (type_error "this.toString is not a function")
    end
  else call_basic name fields.

(** One step of [OrdinaryToPrimitive]: the method [name] of the object, if
    it is callable and gives a primitive. *)
Definition try_method (name : string) (fields : list (string * value))
    (otherwise : completion value) : completion value :=
  match get (VObject fields) name with
  | VNative f =>
      match call_native f fields with
      | Normal r => if is_object r then otherwise else Normal r
      | Throw e => Throw e
      | Never => Never
      end
  | _ => otherwise
  end.

(** [ToPrimitive(v)] as [+] applies it: [valueOf], then [toString]. *)
Definition to_primitive (v : value) : completion value :=
  match v with
  | VError name message => Normal (VStr (error_to_string name message))
  | VPromise _ => Normal (VStr "[object Promise]")
  | VNative name => Normal (VStr (native_source name))
  | VObjectPrototype => Normal (VStr "[object Object]")
  | VObject fields =>
      try_method "valueOf" fields
        (try_method "toString" fields
           (Throw (type_error "Cannot convert object to primitive value")))
  | _ => Normal v
  end.

(** [ToString] of a primitive. *)
Definition primitive_to_string (p : value) : completion string :=
  match p with
  | VUndefined => Normal "undefined"
  | VNull => Normal "null"
  | VBool true => Normal "true"
  | VBool false => Normal "false"
  | VNum x => Normal (number_to_string x)
  | VStr s => Normal s
  | _ => Throw (type_error "Cannot convert a Symbol value to a string")
  end.

(** [ToNumber] of a primitive that is not a string, the only ones [+]
    applies it to. *)
Definition primitive_to_number (p : value) : completion float :=
  match p with
  | VNull => Normal 0%float
  | VBool b => Normal (if b then 1 else 0)%float
  | VNum x => Normal x
  | VSymbol _ => Throw (type_error "Cannot convert a Symbol value to a number")
  | _ => Normal nan
  end.

(** The string that [v] contributes to a [+] with a string. *)
Definition to_string (v : value) : completion string :=
  match to_primitive v with
  | Normal p => primitive_to_string p
  | Throw e => Throw e
  | Never => Never
  end.

(** [a + b] *)
Definition plus (a b : value) : completion value :=
  match to_primitive a with
  | Normal pa =>
      match to_primitive b with
      | Normal pb =>
          if is_string pa || is_string pb then
            match primitive_to_string pa with
            | Normal sa =>
                match primitive_to_string pb with
                | Normal sb => Normal (VStr (sa +:+ sb))
                | Throw e => Throw e
                | Never => Never
                end
            | Throw e => Throw e
            | Never => Never
            end
          else
            match primitive_to_number pa with
            | Normal x =>
                match primitive_to_number pb with
                | Normal y => Normal (VNum (x + y))
                | Throw e => Throw e
                | Never => Never
                end
            | Throw e => Throw e
            | Never => Never
            end
      | Throw e => Throw e
      | Never => Never
      end
  | Throw e => Throw e
  | Never => Never
  end.

(** [e?.toString()] *)
Definition opt_to_string (e : value) : completion value :=
  match e with
  | VUndefined | VNull => Normal VUndefined
  | VBool true => Normal (VStr "true")
  | VBool false => Normal (VStr "false")
  | VNum x => Normal (VStr (number_to_string x))
  | VStr s => Normal (VStr s)
  | VSymbol description => Normal (VStr ("Symbol(" +:+ description +:+ ")"))
  | VError name message => Normal (VStr (error_to_string name message))
  | VPromise _ => Normal (VStr "[object Promise]")
  | VNative name => Normal (VStr (native_source name))
  | VObjectPrototype => Normal (VStr "[object Object]")
  | VObject fields =>
      match get e "toString" with
      | VNative f => call_native f fields
      | _ => Throw (type_error "e?.toString is not a function")
      end
  end.

(** [await v]: a promise is unwrapped to the way it settles; on an object
    whose [then] is a function that function is called, and as none of the
    functions at hand calls back, the wait ends only if the call throws: in
    [toLocaleString] when [this.toString()] does, in the methods of promises
    and of functions because the object is neither; any other value is
    itself. *)
Fixpoint await (v : value) : settled :=
  match v with
  | VPromise (Fulfilled v') => await v'
  | VPromise (Rejected e) => Rejected e
  | VPromise Pending => Pending
  | VObject fields =>
      match field "then" fields with
      | Some (VNative f) =>
          if String.eqb f "toLocaleString" then
            match call_native f fields with
            | Throw e => Rejected e
            | _ => Pending
            end
          else if existsb (String.eqb f) ["then"; "call"; "apply"; "bind"]
          then Rejected (type_error (f +:+ " called on incompatible receiver"))
          else if existsb (String.eqb f) ["catch"; "finally"]
          then Rejected (VError "RangeError" "Maximum call stack size exceeded")
          else Pending
      | _ => Fulfilled v
      end
  | _ => Fulfilled v
  end.

(** [hay.includes(needle)] *)
Fixpoint includes (needle hay : string) : bool :=
  String.prefix needle hay ||
    match hay with
    | EmptyString => false
    | String _ rest => includes needle rest
    end.

(** An object used as a dictionary: its own properties and its
    prototype. *)
Record dict : Type := Dict {
  own : gmap string value;
  proto : value;
}.

(** The own property [key], the definition of an own property, [{}] and
    [{key: v}]. *)
#[global] Instance dict_lookup : Lookup string value dict :=
  λ key obj, own obj !! key.
#[global] Instance dict_insert : Insert string value dict :=
  λ key v obj, Dict (<[key := v]> (own obj)) (proto obj).
#[global] Instance dict_empty : Empty dict := Dict ∅ VObjectPrototype.
#[global] Instance dict_singleton : SingletonM string value dict :=
  λ key v, Dict {[key := v]} VObjectPrototype.

(** An object is read through the accessor [__proto__] when its chain of
    prototypes, from [p] on, ends in [Object.prototype] without a member
    named [__proto__] on the way. *)
Definition has_proto_accessor (p : value) : bool :=
  match p with
  | VObject fields =>
      match field "__proto__" fields with Some _ => false | None => true end
  | _ => is_object p
  end.

(** What an object with prototype [p] and no own property [key] reads
    for it: the getter of [__proto__] gives the prototype of the object that
    is read. *)
Definition inherited (p : value) (key : string) : value :=
  if String.eqb key "__proto__" && has_proto_accessor p then p
  else get p key.

(** [obj[key]] on a dictionary object. *)
Definition prop_get (obj : dict) (key : string) : value :=
  match obj !! key with
  | Some v => v
  | None => inherited (proto obj) key
  end.

(** [obj[key] = v] on a dictionary object.  An own property is written, and
    one that is missing is made, but for [__proto__] where the object has the
    accessor: its setter takes an object or [null] as the new prototype and
    ignores anything else. *)
Definition prop_set (obj : dict) (key : string) (v : value) : dict :=
  match obj !! key with
  | Some _ => <[key := v]> obj
  | None =>
      if String.eqb key "__proto__" && has_proto_accessor (proto obj) then
        if is_object v || is_null v then Dict (own obj) v else obj
      else <[key := v]> obj
  end.

End Js.

(** ** Keyed data store: the default [cfg.data_fn] of [apply] *)

Module Store.

(** What a call of the accessor hands back: a value, an exception of the
    update closure, the promise built around the promise [out] that the
    closure returned, or nothing when the closure does not return. *)
Inductive answer : Type :=
  | Returned (v : value)
  | Raised (e : value)
  | Deferred (key : string) (out : value)
  | Unanswered.

Definition closure : Type := value → completion value.

(** [function (key, def, closure)], closed over [data]. *)
Definition data_fn (key : string) (def : value) (update : option closure)
    (data : Js.dict) : answer * Js.dict :=
  let val := Js.prop_get data key in
  if String.eqb (Js.typeof val) "undefined" then
    (Returned def, Js.prop_set data key def)
  else
    match update with
    | Some f =>
        match f val with
        | Throw e => (Raised e, data)
        | Never => (Unanswered, data)
        | Normal out =>
            if Js.instanceof_Promise out then (Deferred key out, data)
            else (Returned out, Js.prop_set data key out)
        end
    | None => (Returned val, data)
    end.

(** The body of the promise built for [Deferred key out], run on the
    dictionary as it is when [out] settles: the way the promise settles,
    and the dictionary afterwards.  When [e?.toString()] throws in the
    [catch], neither [ok] nor [err] is called. *)
Definition settle_update (key : string) (out : value)
    (data : Js.dict) : settled * Js.dict :=
  match Js.await out with
  | Fulfilled val => (Fulfilled val, Js.prop_set data key val)
  | Rejected e =>
      match Js.opt_to_string e with
      | Normal reason => (Rejected reason, data)
      | _ => (Pending, data)
      end
  | Pending => (Pending, data)
  end.

(** [v => v + 1] *)
Definition increment : closure := λ v, Js.plus v (VNum 1).

End Store.

(** ** Loopback client: [LOOPBACK], [handle_body] and the [fetch] that
       [apply] installs *)

Module Loopback.

(** The [RequestInit] object literals the methods build. *)
Record RequestInit : Type := MkInit {
  init_method : option string;
  init_headers : option (gmap string string);
  init_body : option string;
}.

(** The arguments with which the global [fetch] is called. *)
Record http_request : Type := MkRequest {
  url : string;
  init : option RequestInit;
}.

Record Response : Type := MkResponse {
  resp_status : Z;
  resp_headers : gmap string string;
  resp_body : string;
}.

(** The two functions that the [fetch] property of [LOOPBACK] holds in
    turn: the arrow function of the object literal, and the method that
    [apply] assigns over it, closed over [port]. *)
Inductive fetch_impl : Type :=
  | FetchDeclared
  | FetchInstalled (port : float).

(** The object a loopback method is called on ([this]): [LOOPBACK] itself,
    or a request the methods were copied onto. *)
Record receiver : Type := MkReceiver {
  this_fetch : fetch_impl;
  this_headers : option (gmap string string);
}.

(** [this?.headers?.["user-agent"] || "Loopback"] *)
Definition user_agent (this : receiver) : string :=
  match this_headers this ≫= (λ h, h !! "user-agent") with
  | Some ua => if String.eqb ua "" then "Loopback" else ua
  | None => "Loopback"
  end.

(** [this.fetch(path, init)], up to the call of the global [fetch]. *)
Definition fetch_request (this : receiver) (path : string)
    (_init : option RequestInit) : http_request :=
  match this_fetch this with
  | FetchDeclared => MkRequest path _init
  | FetchInstalled port =>
      let ua := user_agent this in
      let init := default (MkInit None None None) _init in
      let headers := <["user-agent" := ua]> (default ∅ (init_headers init)) in
      MkRequest ("http://localhost:" +:+ Js.number_to_string port +:+ path)
        (Some (MkInit (init_method init) (Some headers) (init_body init)))
  end.

Definition json_headers : gmap string string :=
  {["Content-Type" := "application/json"]}.

Section methods.
(** The platform: the global [fetch] (a response, a transport failure,
    or no answer), [Response.json]'s parser and [JSON.stringify]. *)
Variable net : http_request → completion Response.
Variable JSON_parse : string → settled.
Variable JSON_stringify : value → option string.

Definition handle_body (resp : Response) : settled :=
  let typ := default "" (resp_headers resp !! "content-type") in
  if Js.includes "application/json" typ then JSON_parse (resp_body resp)
  else Fulfilled (VStr (resp_body resp)).

(** [promise.then(handle_body)] *)
Definition then_handle_body (fetched : completion Response) : settled :=
  match fetched with
  | Normal resp => handle_body resp
  | Throw e => Rejected e
  | Never => Pending
  end.

Definition get_request (this : receiver) (path : string) : http_request :=
  fetch_request this path None.
Definition post_request (this : receiver) (path : string) (body : value) :=
  fetch_request this path
    (Some (MkInit (Some "POST") (Some json_headers) (JSON_stringify body))).
Definition delete_request (this : receiver) (path : string) :=
  fetch_request this path (Some (MkInit (Some "DELETE") None None)).
Definition patch_request (this : receiver) (path : string) (body : value) :=
  fetch_request this path
    (Some (MkInit (Some "PATCH") (Some json_headers) (JSON_stringify body))).
Definition put_request (this : receiver) (path : string) (body : value) :=
  fetch_request this path
    (Some (MkInit (Some "PUT") (Some json_headers) (JSON_stringify body))).

Definition get (this : receiver) (path : string) : settled :=
  then_handle_body (net (get_request this path)).
Definition post (this : receiver) (path : string) (body : value) : settled :=
  then_handle_body (net (post_request this path body)).
Definition delete (this : receiver) (path : string) : settled :=
  then_handle_body (net (delete_request this path)).
Definition patch (this : receiver) (path : string) (body : value) : settled :=
  then_handle_body (net (patch_request this path body)).
Definition put (this : receiver) (path : string) (body : value) : settled :=
  then_handle_body (net (put_request this path body)).

(** One of the five calls, with its arguments. *)
Inductive call : Type :=
  | Get (path : string)
  | Post (path : string) (body : value)
  | Put (path : string) (body : value)
  | Patch (path : string) (body : value)
  | Delete (path : string).

Definition request_of (this : receiver) (c : call) : http_request :=
  match c with
  | Get path => get_request this path
  | Post path body => post_request this path body
  | Put path body => put_request this path body
  | Patch path body => patch_request this path body
  | Delete path => delete_request this path
  end.

Definition perform (this : receiver) (c : call) : settled :=
  match c with
  | Get path => get this path
  | Post path body => post this path body
  | Put path body => put this path body
  | Patch path body => patch this path body
  | Delete path => delete this path
  end.
End methods.

End Loopback.

(** ** Effects of the service, and the monad the code runs in *)

(** What the code does to its collaborators, in the order it does it. *)
Inductive effect : Type :=
  | Console (method : string) (arg : value)
  | Res (method : string) (arg : value)
  | DbOpened (filename : string)
  | DbMigrated (migrationsPath : string)
  | DbAll (sql : string)
  | AppUse (middleware : list string)
  | AppRoute (method path : string)
  | AppListen (port : float).

(** The mutable state of the module: the dictionary [cfg.data], the [fetch]
    property of [LOOPBACK], and the effects so far. *)
Record world : Type := World {
  w_data : Js.dict;
  w_fetch : Loopback.fetch_impl;
  w_trace : list effect;
}.

Definition exec (A : Type) : Type := world → completion A * world.

Module Exec.

Definition ret {A} (a : A) : exec A := λ w, (Normal a, w).

Definition throw {A} (e : value) : exec A := λ w, (Throw e, w).

(** A computation that does not complete. *)
Definition never {A} : exec A := λ w, (Never, w).

(** A completion of the platform, as a computation. *)
Definition lift {A} (c : completion A) : exec A := λ w, (c, w).

Definition bind {A B} (m : exec A) (k : A → exec B) : exec B :=
  λ w, match m w with
       | (Normal a, w') => k a w'
       | (Throw e, w') => (Throw e, w')
       | (Never, w') => (Never, w')
       end.

(** [try { body } catch (e) { handler }] *)
Definition try_catch {A} (body : exec A) (handler : value → exec A) : exec A :=
  λ w, match body w with
       | (Throw e, w') => handler e w'
       | done => done
       end.

Definition emit (ev : effect) : exec unit :=
  λ w, (Normal tt, World (w_data w) (w_fetch w) (w_trace w ++ [ev])).

Definition set_data (data : Js.dict) : exec unit :=
  λ w, (Normal tt, World data (w_fetch w) (w_trace w)).

Definition set_fetch (impl : Loopback.fetch_impl) : exec unit :=
  λ w, (Normal tt, World (w_data w) impl (w_trace w)).

Definition get_fetch : exec Loopback.fetch_impl :=
  λ w, (Normal (w_fetch w), w).

(** [await v] *)
Definition await (v : value) : exec value :=
  match Js.await v with
  | Fulfilled x => ret x
  | Rejected e => throw e
  | Pending => never
  end.

(** [for (const x in/of l) body] *)
Fixpoint for_each {A} (l : list A) (body : A → exec unit) : exec unit :=
  match l with
  | [] => ret tt
  | x :: rest => bind (body x) (λ _, for_each rest body)
  end.

End Exec.

Declare Scope exec_scope.
Delimit Scope exec_scope with exec.
Notation "x <- m ;; k" := (Exec.bind m (λ x, k))
  (at level 20, m at level 99, k at level 200, only parsing) : exec_scope.
Notation "m ;; k" := (Exec.bind m (λ _, k))
  (at level 100, k at level 200, only parsing, right associativity) : exec_scope.

(** ** Route application engine *)

Module Engine.
Import Exec.
Local Open Scope exec_scope.

(** The type of [cfg.data_fn], as a function of the dictionary. *)
Definition accessor : Type :=
  string → value → option Store.closure →
  Js.dict → Store.answer * Js.dict.

(** An express request with what the service merges onto it: [req.data],
    the loopback methods around [req.fetch], and [req.db]. *)
Record request : Type := Request {
  req_headers : gmap string string;
  req_body : value;
  req_data : option accessor;
  req_fetch : option Loopback.fetch_impl;
  req_db : bool;
}.

(** [Route]: a user handler.  Its calls on [res] are effects. *)
Definition Route : Type := request → exec value.

Record DbConfig : Type := MkDb {
  db_url : string;
  db_migrations : option string;
}.

(** [Config].  [routes] lists the paths, and for each path its methods, in
    the order [for ... in] enumerates them. *)
Record Config : Type := MkConfig {
  cfg_port : option float;
  cfg_data : option Js.dict;
  cfg_data_fn : option accessor;
  cfg_db : option DbConfig;
  cfg_routes : list (string * list (string * Route));
}.

(** [loopback(req)]: [Object.assign(req, LOOPBACK)] *)
Definition loopback (req : request) : exec request :=
  impl <- get_fetch ;;
  ret (Request (req_headers req) (req_body req) (req_data req) (Some impl)
         (req_db req)).

(** The request as a receiver of the loopback methods. *)
Definition as_receiver (req : request) : option Loopback.receiver :=
  (λ impl, Loopback.MkReceiver impl (Some (req_headers req))) <$> req_fetch req.

Definition console (method : string) (arg : value) : exec unit :=
  emit (Console method arg).

Definition res (method : string) (arg : value) : exec unit :=
  emit (Res method arg).

(** The function [apply_route(cfg, route)] returns. *)
Definition apply_route (cfg : Config) (route : Route) (req : request) : exec unit :=
  let req := Request (req_headers req) (req_body req) (cfg_data_fn cfg)
               (req_fetch req) (req_db req) in
  req <- loopback req ;;
  try_catch
    (out <- route req ;;
     resp <- await out ;;
     if negb (String.eqb (Js.typeof resp) "undefined") then
       res (if String.eqb (Js.typeof resp) "string" then "end" else "json") resp
     else ret tt)
    (λ e,
       console "error" e ;;
       res "status" (VNum 500) ;;
       body <- lift (Js.plus (VStr "Error! ") e) ;;
       res "send" body).

Section main.
(** The first two routes of [src/main.ts], over the platform the loopback
    client runs on. *)
Variable net : Loopback.http_request → completion Loopback.Response.
Variable JSON_parse : string → settled.

(** [get: () => "Hello"] *)
Definition hello : Route := λ _, ret (VStr "Hello").

(** [get: async (req) => (await req.get("/hello")) + " world!"] *)
Definition hello_world : Route := λ req,
  match as_receiver req with
  | Some this =>
      got <- await (VPromise (Loopback.get net JSON_parse this "/hello")) ;;
      lift (Js.plus got (VStr " world!"))
  | None => throw (VError "TypeError" "req.get is not a function")
  end.

End main.

Section database.
(** The collaborators of startup: the reason sqlite's [open] and
    [db.migrate] reject with, if they do; what [db.all] resolves to; how
    [app[method](path, handler)] goes: the call returns, or throws, as it
    does when [app] has no function under that key, or does not return; and
    how [app.listen] on a port goes: the server listens and calls back, the
    call throws, or the callback never comes. *)
Variable sqlite_open : string → option value.
Variable db_migrate : string → option value.
Variable db_all : string → completion value.
Variable app_register : string → string → completion unit.
Variable app_listen : float → completion unit.

Definition open (filename : string) : exec unit :=
  match sqlite_open filename with
  | Some e => throw e
  | None => emit (DbOpened filename)
  end.

Definition migrate (migrationsPath : string) : exec unit :=
  match db_migrate migrationsPath with
  | Some e => throw e
  | None => emit (DbMigrated migrationsPath)
  end.

Definition all (sql : string) : exec value :=
  emit (DbAll sql) ;;
  lift (db_all sql).

(** [sql += clause + v], when [v] is truthy. *)
Definition add_clause (sql clause : string) (v : value) : completion string :=
  if Js.truthy v then
    match Js.to_string v with
    | Normal text => Normal (sql +:+ (clause +:+ text))
    | Throw e => Throw e
    | Never => Never
    end
  else Normal sql.

(** The text [dump_table] builds in [sql]. *)
Definition dump_table_sql (name : string) (limit offset : value)
    : completion string :=
  match add_clause ("SELECT * FROM " +:+ name) " OFFSET " offset with
  | Normal sql => add_clause sql " LIMIT " limit
  | Throw e => Throw e
  | Never => Never
  end.

Definition dump_table (name : string) (limit offset : value) : exec unit :=
  sql <- lift (dump_table_sql name limit offset) ;;
  it <- all sql ;;
  console "table" it.

(** [sqlite({url, migrations})]; the result names the middleware. *)
Definition sqlite (db : DbConfig) : exec string :=
  open (db_url db) ;;
  match db_migrations db with
  | Some migrations =>
      if Js.truthy (VStr migrations) then migrate migrations else ret tt
  | None => ret tt
  end ;;
  ret "sqlite".

(** The middleware [sqlite] returns. *)
Definition attach_db (req : request) : request :=
  Request (req_headers req) (req_body req) (req_data req) (req_fetch req) true.

(** [cfg.port || 8000] *)
Definition port_of (cfg : Config) : float :=
  match cfg_port cfg with
  | Some p => if Js.truthy (VNum p) then p else 8000%float
  | None => 8000%float
  end.

(** [cfg] after the init block: [cfg.data_fn || function ...]. *)
Definition initialised (cfg : Config) : Config :=
  MkConfig (cfg_port cfg) (Some (default ∅ (cfg_data cfg)))
    (Some (default Store.data_fn (cfg_data_fn cfg)))
    (cfg_db cfg) (cfg_routes cfg).

(** [app[method](path, ...)] *)
Definition app_method (method path : string) : exec unit :=
  lift (app_register method path) ;;
  emit (AppRoute method path).


Definition database_block (cfg : Config) : exec unit :=
  match cfg_db cfg with
  | Some db =>
      if Js.truthy (VStr (db_url db)) then
        middleware <- sqlite db ;;
        emit (AppUse [middleware])
      else ret tt
  | None => ret tt
  end.

Definition routing_block (cfg : Config) : exec unit :=
  emit (AppUse ["morgan"; "bodyParser.json"]) ;;
  for_each (cfg_routes cfg) (λ '(path, route),
    for_each route (λ '(method, _), app_method method path)).

Definition started (port : float) : value :=
  VStr ("Server started! http://localhost:" +:+ Js.number_to_string port).

(** [apply(app, cfg)] *)
Definition apply (cfg : Config) : exec unit :=
  let port := port_of cfg in
  set_data (default ∅ (cfg_data cfg)) ;;
  set_fetch (Loopback.FetchInstalled port) ;;
  database_block cfg ;;
  routing_block cfg ;;
  emit (AppListen port) ;;
  lift (app_listen port) ;;
  console "log" (started port).

End database.

(** [LOOPBACK], used as it is in the module. *)
Definition LOOPBACK (w : world) : Loopback.receiver :=
  Loopback.MkReceiver (w_fetch w) None.

(** The module when it has just been loaded. *)
Definition loaded : world := World ∅ Loopback.FetchDeclared [].

End Engine.

(** ** Vocabulary of the statements *)

Module Obs.
Import Engine.

(** The request a user handler receives from [apply_route]. *)
Definition augmented (cfg : Config) (w : world) (req : request) : request :=
  Request (req_headers req) (req_body req) (cfg_data_fn cfg) (Some (w_fetch w))
    (req_db req).

(** The world after further effects. *)
Definition after (w : world) (evs : list effect) : world :=
  World (w_data w) (w_fetch w) (w_trace w ++ evs).

(** The user handler raises [e], by throwing or through a promise that
    rejects, and leaves the world [w1]. *)
Definition handler_fails (route : Route) (req : request) (w : world)
    (e : value) (w1 : world) : Prop :=
  route req w = (Throw e, w1) ∨
  ∃ out, route req w = (Normal out, w1) ∧ Js.await out = Rejected e.

(** The user handler yields [resp], directly or through a promise. *)
Definition handler_yields (route : Route) (req : request) (w : world)
    (resp : value) (w1 : world) : Prop :=
  ∃ out, route req w = (Normal out, w1) ∧ Js.await out = Fulfilled resp.


Definition is_db_effect (ev : effect) : Prop :=
  match ev with DbOpened _ | DbMigrated _ => True | _ => False end.

Definition is_route_effect (ev : effect) : Prop :=
  match ev with AppRoute _ _ => True | _ => False end.

Definition is_listen_effect (ev : effect) : Prop :=
  match ev with
  | AppListen _ | Console _ _ => True
  | _ => False
  end.

(** The registrations the routing block makes, in order. *)
Definition route_effects (routes : list (string * list (string * Route)))
    : list effect :=
  flat_map (λ '(path, route), map (λ '(method, _), AppRoute method path) route)
    routes.

(** The effects a computation added to the trace of [w]. *)
Definition run_effects {A} (w : world) (r : completion A * world) : list effect :=
  drop (length (w_trace w)) (w_trace r.2).

(** How the database block ends and which effects it has, read off the
    configuration and the sqlite collaborator. *)
Definition database_outcome (sqlite_open db_migrate : string → option value)
    (cfg : Config) : completion unit * list effect :=
  match cfg_db cfg with
  | None => (Normal tt, [])
  | Some db =>
      if Js.truthy (VStr (db_url db)) then
        match sqlite_open (db_url db) with
        | Some e => (Throw e, [])
        | None =>
            match db_migrations db with
            | None => (Normal tt, [DbOpened (db_url db); AppUse ["sqlite"]])
            | Some m =>
                if Js.truthy (VStr m) then
                  match db_migrate m with
                  | Some e => (Throw e, [DbOpened (db_url db)])
                  | None =>
                      (Normal tt,
                       [DbOpened (db_url db); DbMigrated m; AppUse ["sqlite"]])
                  end
                else (Normal tt, [DbOpened (db_url db); AppUse ["sqlite"]])
            end
        end
      else (Normal tt, [])
  end.

(** Opening the configured database, or migrating it, fails. *)
Definition database_fails (sqlite_open db_migrate : string → option value)
    (cfg : Config) : Prop :=
  ∃ db, cfg_db cfg = Some db ∧ Js.truthy (VStr (db_url db)) = true ∧
    (is_Some (sqlite_open (db_url db)) ∨
     ∃ m, db_migrations db = Some m ∧ Js.truthy (VStr m) = true ∧
          is_Some (db_migrate m)).

(** How the routing block ends and which routes it registers: every
    declared method of every path in turn, up to the first call of
    [app[method]] that does not return. *)
Fixpoint methods_outcome (app_register : string → string → completion unit)
    (path : string) (route : list (string * Route))
    : completion unit * list effect :=
  match route with
  | [] => (Normal tt, [])
  | (method, _) :: rest =>
      match app_register method path with
      | Normal _ =>
          (λ '(c, evs), (c, AppRoute method path :: evs))
            (methods_outcome app_register path rest)
      | Throw e => (Throw e, [])
      | Never => (Never, [])
      end
  end.

Fixpoint routes_outcome (app_register : string → string → completion unit)
    (routes : list (string * list (string * Route)))
    : completion unit * list effect :=
  match routes with
  | [] => (Normal tt, [])
  | (path, route) :: rest =>
      match methods_outcome app_register path route with
      | (Normal _, evs) =>
          (λ '(c, evs'), (c, evs ++ evs')) (routes_outcome app_register rest)
      | failed => failed
      end
  end.

(** What follows the routing block: the call of [app.listen] and, if the
    server comes to listen, the log line. *)
Definition listening (app_listen : float → completion unit) (port : float)
    : list effect :=
  AppListen port
  :: match app_listen port with
     | Normal _ => [Console "log" (started port)]
     | _ => []
     end.

(** [app] takes every route of the configuration: each call of
    [app[method]] that the routing block makes returns. *)
Definition routes_routable (app_register : string → string → completion unit)
    (cfg : Config) : Prop :=
  ∀ path route method handler,
    (path, route) ∈ cfg_routes cfg → (method, handler) ∈ route →
    app_register method path = Normal tt.

(** An [app] that has the methods of [RouteConfig] and nothing under other
    keys. *)
Definition route_methods : list string :=
  ["get"; "post"; "put"; "patch"; "delete"].

Definition routes_only (method path : string) : completion unit :=
  if existsb (String.eqb method) route_methods then Normal tt
  else Throw (Js.type_error "app[method] is not a function").

(** The request a call names, and a header of the request issued. *)
Definition call_path (c : Loopback.call) : string :=
  match c with
  | Loopback.Get path | Loopback.Delete path => path
  | Loopback.Post path _ | Loopback.Put path _ | Loopback.Patch path _ => path
  end.

Definition header (r : Loopback.http_request) (name : string) : option string :=
  match Loopback.init r with
  | Some i =>
      match Loopback.init_headers i with
      | Some h => h !! name
      | None => None
      end
  | None => None
  end.

End Obs.

(** ** [joinObject] *)

(** [Object.assign(base, arg)] on dictionary objects: every property of
    [arg] is written onto [base]. *)
Definition object_assign (base arg : gmap string value) : gmap string value :=
  arg ∪ base.

(** [joinObject(base, ...args)]; the result is [base] as the loop leaves it. *)
Definition joinObject (base : gmap string value)
    (args : list (gmap string value)) : gmap string value :=
  foldl object_assign base args.

(** ** The accessor in use *)

(** [async v => v + 1] *)
Definition async_increment : Store.closure :=
  λ v, match Js.plus v (VNum 1) with
       | Normal out => Normal (VPromise (Fulfilled out))
       | Throw e => Normal (VPromise (Rejected e))
       | Never => Normal (VPromise Pending)
       end.

(** The dictionary after [n] calls [data(key, def, update)] in a row. *)
Fixpoint calls (n : nat) (key : string) (def : value)
    (update : option Store.closure) (data : Js.dict) : Js.dict :=
  match n with
  | O => data
  | S n' => (Store.data_fn key def update (calls n' key def update data)).2
  end.


(** ** Keyed data store *)

Import Store.

Section store_facts.
Implicit Types (data : Js.dict) (key : string) (def v : value).

Lemma typeof_undefined v :
  String.eqb (Js.typeof v) "undefined" = true ↔ v = VUndefined.
Proof. destruct v; simpl; split; intros H; congruence. Qed.

Lemma typeof_defined v :
  v ≠ VUndefined → String.eqb (Js.typeof v) "undefined" = false.
Proof.
  intros Hv. destruct (String.eqb (Js.typeof v) "undefined") eqn:E; [|done].
  apply typeof_undefined in E. contradiction.
Qed.

Lemma dict_lookup_insert data key v : <[key := v]> data !! key = Some v.
Proof. apply (lookup_insert_eq (Js.own data)). Qed.

Lemma dict_lookup_insert_ne data key key' v :
  key ≠ key' → <[key := v]> data !! key' = data !! key'.
Proof. apply (lookup_insert_ne (Js.own data)). Qed.

Lemma dict_insert_insert data key v v' :
  <[key := v']> (<[key := v]> data) = <[key := v']> data.
Proof.
  unfold insert, Js.dict_insert. simpl. f_equal.
  apply (insert_insert_eq (Js.own data)).
Qed.

(** What is read through the accessor [__proto__] is an object. *)
Lemma inherited_undefined p key :
  Js.inherited p key = VUndefined →
  String.eqb key "__proto__" && Js.has_proto_accessor p = false.
Proof.
  unfold Js.inherited.
  destruct (String.eqb key "__proto__" && Js.has_proto_accessor p) eqn:E; [|done].
  apply andb_prop in E as [_ E]. intros ->. discriminate E.
Qed.

(** A key that reads as [undefined] is written as a property of the
    dictionary's own. *)
Lemma prop_set_undefined data key v :
  Js.prop_get data key = VUndefined → Js.prop_set data key v = <[key := v]> data.
Proof.
  unfold Js.prop_get, Js.prop_set. destruct (data !! key); [done|].
  intros H. by rewrite (inherited_undefined _ _ H).
Qed.

Lemma prop_set_own data key v :
  is_Some (data !! key) → Js.prop_set data key v = <[key := v]> data.
Proof. intros [v' H]. unfold Js.prop_set. by rewrite H. Qed.

Lemma prop_get_own data key v : data !! key = Some v → Js.prop_get data key = v.
Proof. intros Hk. unfold Js.prop_get. by rewrite Hk. Qed.

Lemma prop_get_insert data key v : Js.prop_get (<[key := v]> data) key = v.
Proof. apply prop_get_own, dict_lookup_insert. Qed.

Lemma prop_get_insert_ne data key key' v :
  key ≠ key' → Js.prop_get (<[key := v]> data) key' = Js.prop_get data key'.
Proof.
  intros Hne. unfold Js.prop_get. by rewrite dict_lookup_insert_ne.
Qed.

(** An assignment to a key other than [__proto__] adds or writes an own
    property. *)
Lemma prop_set_insert data key v :
  key ≠ "__proto__" → Js.prop_set data key v = <[key := v]> data.
Proof.
  intros Hp. unfold Js.prop_set. destruct (data !! key); [done|].
  apply String.eqb_neq in Hp. by rewrite Hp.
Qed.

Lemma data_fn_undefined data key def update :
  Js.prop_get data key = VUndefined →
  data_fn key def update data = (Returned def, <[key := def]> data).
Proof.
  intros Hget. unfold data_fn. rewrite Hget. simpl.
  by rewrite prop_set_undefined.
Qed.

Lemma data_fn_read data key def v :
  data !! key = Some v → v ≠ VUndefined →
  data_fn key def None data = (Returned v, data).
Proof.
  intros Hk Hv. unfold data_fn. rewrite (prop_get_own data key v) by done.
  by rewrite typeof_defined.
Qed.

Lemma data_fn_sync_update data key def v (f : closure) out :
  data !! key = Some v → v ≠ VUndefined →
  f v = Normal out → Js.instanceof_Promise out = false →
  data_fn key def (Some f) data = (Returned out, <[key := out]> data).
Proof.
  intros Hk Hv Hf Hp. unfold data_fn. rewrite (prop_get_own data key v) by done.
  rewrite typeof_defined, Hf, Hp by done.
  by rewrite prop_set_own.
Qed.

Lemma data_fn_async_update data key def v (f : closure) out :
  data !! key = Some v → v ≠ VUndefined →
  f v = Normal out → Js.instanceof_Promise out = true →
  data_fn key def (Some f) data = (Deferred key out, data).
Proof.
  intros Hk Hv Hf Hp. unfold data_fn. rewrite (prop_get_own data key v) by done.
  by rewrite typeof_defined, Hf, Hp.
Qed.

Lemma increment_number (n : float) : increment (VNum n) = Normal (VNum (n + 1)).
Proof. reflexivity. Qed.

End store_facts.

(** C1, as the spec has it, fails in two ways.  A key that the dictionary
    inherits from [Object.prototype], such as [toString], is unseen and yet
    the first call returns the inherited function and stores nothing.  And a
    first default of [undefined] does not remain: the next call that brings
    a default applies it. *)
Lemma default_not_always_once :
  ¬ (∀ (data : Js.dict) k d,
       data !! k = None →
       data_fn k d None data = (Returned d, <[k := d]> data)) ∧
  ¬ (∀ (data : Js.dict) k d d',
       data !! k = None →
       data_fn k d' None (data_fn k d None data).2
       = (Returned d, (data_fn k d None data).2)).
Proof.
  split.
  - intros H. specialize (H ∅ "toString" (VNum 5) eq_refl).
    vm_compute in H. discriminate H.
  - intros H. specialize (H ∅ "hits" VUndefined (VNum 7) eq_refl).
    vm_compute in H. discriminate H.
Qed.

(** C1, amended.  On an unseen key that the dictionary does not inherit
    either (reading it gives [undefined]), the first call of the accessor
    with default [d] (whatever update closure comes with it) stores [d] under
    the key and returns [d]; a following call without default and without
    update returns [d] again and leaves the dictionary as it is.  A default
    other than [undefined] is moreover kept against any later default. *)
Theorem get_or_put_default_once (data : Js.dict) k d update :
  data !! k = None → Js.prop_get data k = VUndefined →
  data_fn k d update data = (Returned d, <[k := d]> data) ∧
  data_fn k VUndefined None (<[k := d]> data) = (Returned d, <[k := d]> data) ∧
  (d ≠ VUndefined →
   ∀ d', data_fn k d' None (<[k := d]> data) = (Returned d, <[k := d]> data)).
Proof.
  intros Hk Hget. split; [|split].
  - by apply data_fn_undefined.
  - destruct (String.eqb (Js.typeof d) "undefined") eqn:Hd.
    + apply typeof_undefined in Hd as ->.
      rewrite data_fn_undefined by apply prop_get_insert.
      by rewrite dict_insert_insert.
    + apply data_fn_read; [apply dict_lookup_insert | by intros ->].
  - intros Hd d'. apply data_fn_read; [apply dict_lookup_insert | done].
Qed.

Lemma get_or_put_default_once_witness :
  data_fn "hits" (VNum 0) None ∅ = (Returned (VNum 0), <["hits" := VNum 0]> ∅) ∧
  data_fn "hits" VUndefined None (<["hits" := VNum 0]> ∅)
    = (Returned (VNum 0), <["hits" := VNum 0]> ∅) ∧
  (VNum 0 ≠ VUndefined →
   ∀ d', data_fn "hits" d' None (<["hits" := VNum 0]> ∅)
         = (Returned (VNum 0), <["hits" := VNum 0]> ∅)).
Proof.
  apply (get_or_put_default_once ∅ "hits" (VNum 0) None); reflexivity.
Defined.

(** C8. On a key holding the number [n], the accessor called with any
    default and the update closure [v => v + 1] returns [n + 1] and stores
    it; a later read of the key (no default, no update) observes [n + 1].
    Here [+] is the addition of the platform's doubles. *)
Theorem get_or_put_increment (data : Js.dict) k n d1 :
  data !! k = Some (VNum n) →
  data_fn k d1 (Some increment) data
    = (Returned (VNum (n + 1)), <[k := VNum (n + 1)]> data) ∧
  data_fn k VUndefined None (<[k := VNum (n + 1)]> data)
    = (Returned (VNum (n + 1)), <[k := VNum (n + 1)]> data).
Proof.
  intros Hk. split.
  - by apply (data_fn_sync_update data k d1 (VNum n) increment (VNum (n + 1))).
  - apply data_fn_read; [apply dict_lookup_insert | done].
Qed.

Lemma get_or_put_increment_witness :
  data_fn "hits" (VNum 0) (Some increment) {["hits" := VNum 41]}
    = (Returned (VNum (41 + 1)), <["hits" := VNum (41 + 1)]> {["hits" := VNum 41]}) ∧
  data_fn "hits" VUndefined None (<["hits" := VNum (41 + 1)]> {["hits" := VNum 41]})
    = (Returned (VNum (41 + 1)), <["hits" := VNum (41 + 1)]> {["hits" := VNum 41]}).
Proof.
  apply (get_or_put_increment {["hits" := VNum 41]} "hits" 41 (VNum 0)).
  reflexivity.
Defined.

(** The same call where doubles stop counting: at [2 ^ 53] the sum [n + 1]
    is [n] itself. *)
Example get_or_put_increment_at_2_53 :
  data_fn "hits" VUndefined (Some increment) {["hits" := VNum 9007199254740992]}
  = (Returned (VNum 9007199254740992),
     <["hits" := VNum 9007199254740992]> {["hits" := VNum 9007199254740992]}).
Proof. vm_compute. reflexivity. Qed.

(** C2, where the code departs from it.  The update closure returns a
    promise that rejects with an object whose [toString] is not a function:
    the call writes nothing and hands back a promise, and when the rejection
    arrives [e?.toString()] throws inside the [catch], so the promise is
    never rejected: it stays pending, on whatever the dictionary then is,
    and the dictionary is left as it is. *)
Lemma failed_async_update_left_pending :
  let reason := VObject [("toString", VNum 1)] in
  let out := VPromise (Rejected reason) in
  let data : Js.dict := {["hits" := VNum 1]} in
  data_fn "hits" VUndefined (Some (λ _, Normal out)) data = (Deferred "hits" out, data) ∧
  ∀ later : Js.dict, settle_update "hits" out later = (Pending, later).
Proof. split; [by vm_compute | intros later; reflexivity]. Qed.

(** C10. Presence is decided by the stored value, not by membership: on a
    key whose stored value is [undefined], a call with default [d] (and any
    update closure) stores [d] and returns it, also when the key is already
    a member of the dictionary. *)
Theorem undefined_value_takes_default (data : Js.dict) k d update :
  Js.prop_get data k = VUndefined →
  data_fn k d update data = (Returned d, <[k := d]> data) ∧
  (<[k := d]> data) !! k = Some d.
Proof.
  intros Hget. split; [by apply data_fn_undefined | apply dict_lookup_insert].
Qed.

Lemma undefined_value_takes_default_witness :
  let seen := (data_fn "user" VUndefined None ∅).2 in
  seen !! "user" = Some VUndefined ∧
  data_fn "user" (VStr "ann") None seen
    = (Returned (VStr "ann"), <["user" := VStr "ann"]> seen) ∧
  (<["user" := VStr "ann"]> seen) !! "user" = Some (VStr "ann").
Proof.
  split; [reflexivity|].
  apply (undefined_value_takes_default
           (data_fn "user" VUndefined None ∅).2 "user" (VStr "ann") None).
  reflexivity.
Defined.

(** ** The route application engine *)

Import Engine Obs.

(** Unfolding of the monad's plumbing. *)
Ltac run_exec :=
  unfold Exec.try_catch, Exec.bind, Exec.get_fetch, Exec.ret, Exec.throw,
    Exec.never, Exec.lift, Exec.await, console, res, Exec.emit; simpl.

Section engine_facts.
Implicit Types (cfg : Config) (route : Route) (req : request) (w : world).

Lemma after_nil w : after w [] = w.
Proof. destruct w. unfold after. simpl. by rewrite app_nil_r. Qed.

Lemma after_after w evs evs' : after (after w evs) evs' = after w (evs ++ evs').
Proof. unfold after. simpl. by rewrite app_assoc. Qed.

(** [s + v] for a string [s]. *)
Lemma plus_string_left s v :
  Js.plus (VStr s) v =
    match Js.to_string v with
    | Normal text => Normal (VStr (s +:+ text))
    | Throw e => Throw e
    | Never => Never
    end.
Proof.
  unfold Js.plus, Js.to_string. simpl.
  destruct (Js.to_primitive v) as [p|e|]; [|done..]. simpl.
  by destruct (Js.primitive_to_string p).
Qed.

Lemma prefix_refl s : String.prefix s s = true.
Proof. induction s as [|c s IH]; simpl; [done|]. by destruct (Ascii.ascii_dec c c). Qed.

Lemma includes_refl s : Js.includes s s = true.
Proof.
  destruct s as [|c s]; [done|].
  change (String.prefix (String c s) (String c s) || Js.includes (String c s) s = true).
  by rewrite prefix_refl.
Qed.

Lemma includes_after p s : Js.includes s (p +:+ s) = true.
Proof.
  induction p as [|c p IH]; simpl.
  - apply includes_refl.
  - rewrite IH. apply orb_true_r.
Qed.

(** What the wrapped handler does once the user handler has yielded. *)
Lemma apply_route_yields cfg route req w resp w1 :
  handler_yields route (augmented cfg w req) w resp w1 →
  apply_route cfg route req w =
    (Normal tt,
     if String.eqb (Js.typeof resp) "undefined" then w1
     else after w1 [Res (if String.eqb (Js.typeof resp) "string" then "end"
                         else "json") resp]).
Proof.
  intros (out & Hroute & Hawait).
  unfold apply_route, loopback. run_exec.
  unfold augmented in Hroute. rewrite Hroute, Hawait. simpl.
  by destruct (String.eqb (Js.typeof resp) "undefined").
Qed.

(** What it does once the user handler has failed: the report goes out,
    unless turning the failure into text fails in its turn. *)
Lemma apply_route_fails cfg route req w e w1 :
  handler_fails route (augmented cfg w req) w e w1 →
  apply_route cfg route req w =
    match Js.to_string e with
    | Normal text =>
        (Normal tt,
         after w1 [Console "error" e; Res "status" (VNum 500);
                   Res "send" (VStr ("Error! " +:+ text))])
    | Throw e' =>
        (Throw e', after w1 [Console "error" e; Res "status" (VNum 500)])
    | Never =>
        (Never, after w1 [Console "error" e; Res "status" (VNum 500)])
    end.
Proof.
  intros Hfail.
  unfold apply_route, loopback. run_exec.
  unfold augmented in Hfail.
  destruct Hfail as [Hthrow | (out & Hroute & Hawait)].
  - rewrite Hthrow. simpl. rewrite plus_string_left.
    destruct (Js.to_string e); unfold after; simpl; by rewrite <- ?app_assoc.
  - rewrite Hroute, Hawait. simpl. rewrite plus_string_left.
    destruct (Js.to_string e); unfold after; simpl; by rewrite <- ?app_assoc.
Qed.


End engine_facts.




(** C4, where the code departs from it.  A handler throws a value that [+]
    cannot turn into a string, a symbol or an object whose [toString] is not
    a function: the failure is logged and status 500 is set, but
    ["Error! " + e] throws inside the [catch], nothing is sent, and the
    exception leaves the wrapped handler. *)
Lemma failing_handler_escapes :
  let cfg := MkConfig None None None None [] in
  let req := Request ∅ VUndefined None None false in
  let symbol := VSymbol "boom" in
  let object := VObject [("toString", VNum 1)] in
  apply_route cfg (λ _, Exec.throw symbol) req loaded
    = (Throw (Js.type_error "Cannot convert a Symbol value to a string"),
       after loaded [Console "error" symbol; Res "status" (VNum 500)]) ∧
  apply_route cfg (λ _, Exec.throw object) req loaded
    = (Throw (Js.type_error "Cannot convert object to primitive value"),
       after loaded [Console "error" object; Res "status" (VNum 500)]).
Proof. split; by vm_compute. Qed.

(** ** Startup *)

(** Two worlds that differ in how their traces are bracketed. *)
Ltac same_trace :=
  unfold Exec.emit, Exec.ret, after; simpl; rewrite <- ?app_assoc; reflexivity.

Section startup_facts.
Variable sqlite_open : string → option value.
Variable db_migrate : string → option value.
Variable app_register : string → string → completion unit.
Variable app_listen : float → completion unit.
Implicit Types (cfg : Config) (w : world).

Lemma database_block_outcome cfg w :
  database_block sqlite_open db_migrate cfg w =
    ((database_outcome sqlite_open db_migrate cfg).1,
     after w (database_outcome sqlite_open db_migrate cfg).2).
Proof.
  unfold database_block, database_outcome, sqlite, open, migrate.
  destruct (cfg_db cfg) as [db|]; [|by rewrite after_nil].
  destruct (Js.truthy (VStr (db_url db))); [|by rewrite after_nil].
  unfold Exec.bind.
  destruct (sqlite_open (db_url db)) as [e|]; [by rewrite after_nil|].
  simpl. destruct (db_migrations db) as [m|]; simpl.
  - destruct (negb (String.eqb m "")); simpl.
    + destruct (db_migrate m) as [e|]; simpl; [done|]. same_trace.
    + same_trace.
  - same_trace.
Qed.

Lemma register_methods path (route : list (string * Route)) w :
  Exec.for_each route (λ '(method, _), app_method app_register method path) w
  = ((methods_outcome app_register path route).1, after w (methods_outcome app_register path route).2).
Proof.
  revert w. induction route as [|[method handler] route IH]; intros w; simpl.
  - by rewrite after_nil.
  - unfold Exec.bind, app_method, Exec.lift.
    destruct (app_register method path) as [[]|e|]; simpl;
      [|by rewrite after_nil..].
    rewrite IH. destruct (methods_outcome app_register path route) as [[[]|e|] evs];
      simpl; f_equal; same_trace.
Qed.

Lemma register_routes (routes : list (string * list (string * Route))) w :
  Exec.for_each routes (λ '(path, route),
    Exec.for_each route (λ '(method, _), app_method app_register method path)) w
  = ((routes_outcome app_register routes).1, after w (routes_outcome app_register routes).2).
Proof.
  revert w. induction routes as [|[path route] routes IH]; intros w; simpl.
  - by rewrite after_nil.
  - unfold Exec.bind. rewrite register_methods.
    destruct (methods_outcome app_register path route) as [[[]|e|] evs]; simpl; [|done..].
    rewrite IH. destruct (routes_outcome app_register routes) as [c evs']. simpl.
    by rewrite after_after.
Qed.

Lemma routing_block_outcome cfg w :
  routing_block app_register cfg w
  = ((routes_outcome app_register (cfg_routes cfg)).1,
     after w (AppUse ["morgan"; "bodyParser.json"]
              :: (routes_outcome app_register (cfg_routes cfg)).2)).
Proof.
  unfold routing_block, Exec.bind. simpl. rewrite register_routes.
  f_equal. unfold after. simpl. by rewrite <- app_assoc.
Qed.

Lemma methods_outcome_routes path (route : list (string * Route)) :
  Forall is_route_effect (methods_outcome app_register path route).2 ∧
  ((methods_outcome app_register path route).1 = Normal tt →
   (methods_outcome app_register path route).2 = map (λ '(method, _), AppRoute method path) route).
Proof.
  induction route as [|[method handler] route [IH1 IH2]]; simpl; [by split|].
  destruct (app_register method path) as [[]|e|]; simpl; [|by split..].
  destruct (methods_outcome app_register path route) as [c evs]; simpl in *. split.
  - by constructor.
  - intros Hc. by rewrite IH2.
Qed.

Lemma routes_outcome_routes (routes : list (string * list (string * Route))) :
  Forall is_route_effect (routes_outcome app_register routes).2 ∧
  ((routes_outcome app_register routes).1 = Normal tt →
   (routes_outcome app_register routes).2 = route_effects routes).
Proof.
  induction routes as [|[path route] routes [IH1 IH2]]; simpl; [by split|].
  destruct (methods_outcome_routes path route) as [Hm1 Hm2].
  destruct (methods_outcome app_register path route) as [[[]|e|] evs]; simpl in *;
    [|by split..].
  destruct (routes_outcome app_register routes) as [c evs']; simpl in *. split.
  - by apply Forall_app.
  - intros Hc. by rewrite Hm2, IH2.
Qed.

Lemma routes_outcome_routable cfg :
  routes_routable app_register cfg → (routes_outcome app_register (cfg_routes cfg)).1 = Normal tt.
Proof.
  unfold routes_routable. induction (cfg_routes cfg) as [|[path route] routes IH];
    intros Hok; simpl; [done|].
  assert (Hroute : (methods_outcome app_register path route).1 = Normal tt).
  { assert (Hin : ∀ method handler, (method, handler) ∈ route →
                    app_register method path = Normal tt).
    { intros method handler Hm. apply (Hok path route method handler); [|done].
      apply elem_of_cons. by left. }
    clear Hok IH. induction route as [|[method handler] route IHr]; simpl; [done|].
    rewrite (Hin method handler) by (apply elem_of_cons; by left).
    destruct (methods_outcome app_register path route) as [c evs]; simpl in *.
    apply IHr. intros m h Hm. apply (Hin m h). apply elem_of_cons. by right. }
  destruct (methods_outcome app_register path route) as [c evs]; simpl in *. subst c.
  destruct (routes_outcome app_register routes) as [c evs'] eqn:E; simpl in *.
  apply IH. intros p r m h Hp Hm. apply (Hok p r m h); [|done].
  apply elem_of_cons. by right.
Qed.

(** The whole of [apply], as its outcome and the trace it leaves. *)
Lemma apply_outcome cfg w :
  let port := port_of cfg in
  let w0 := World (default ∅ (cfg_data cfg)) (Loopback.FetchInstalled port)
              (w_trace w) in
  let db := database_outcome sqlite_open db_migrate cfg in
  let rt := routes_outcome app_register (cfg_routes cfg) in
  apply sqlite_open db_migrate app_register app_listen cfg w =
    match db.1 with
    | Normal _ =>
        match rt.1 with
        | Normal _ =>
            (app_listen port,
             after w0 (db.2 ++ AppUse ["morgan"; "bodyParser.json"]
                       :: rt.2 ++ listening app_listen port))
        | _ => (rt.1, after w0 (db.2 ++ AppUse ["morgan"; "bodyParser.json"] :: rt.2))
        end
    | _ => (db.1, after w0 db.2)
    end.
Proof.
  intros port w0 db rt. unfold apply. fold port.
  unfold Exec.bind at 1. simpl. unfold Exec.bind at 1. simpl. fold w0.
  unfold Exec.bind at 1. rewrite database_block_outcome. fold db.
  destruct db as [[[]|e|] evs]; simpl; [|done..].
  unfold Exec.bind at 1. rewrite routing_block_outcome. fold rt.
  destruct rt as [[[]|e|] revs]; simpl; [|by rewrite after_after..].
  unfold listening, Exec.bind, Exec.lift, console, Exec.emit, after. simpl.
  destruct (app_listen port) as [[]|e|]; simpl; do 2 f_equal;
    rewrite <- ?app_assoc; simpl; by rewrite <- ?app_assoc.
Qed.

Lemma database_outcome_quiet cfg :
  Forall (λ ev, ¬ is_route_effect ev ∧ ¬ is_listen_effect ev)
    (database_outcome sqlite_open db_migrate cfg).2.
Proof.
  unfold database_outcome.
  repeat (case_match; simpl);
    repeat (apply Forall_cons_2; [split; intros []|]); apply Forall_nil_2.
Qed.

Lemma database_outcome_fails cfg :
  database_fails sqlite_open db_migrate cfg →
  ∃ e, (database_outcome sqlite_open db_migrate cfg).1 = Throw e.
Proof.
  intros (db & Hdb & Hurl & Hfail). unfold database_outcome.
  rewrite Hdb, Hurl.
  destruct Hfail as [[e He] | (m & Hm & Htruthy & [e He])].
  - rewrite He. by exists e.
  - destruct (sqlite_open (db_url db)) as [e'|]; [by exists e'|].
    rewrite Hm, Htruthy, He. by exists e.
Qed.

Lemma database_outcome_complete cfg db :
  (database_outcome sqlite_open db_migrate cfg).1 = Normal tt →
  cfg_db cfg = Some db → Js.truthy (VStr (db_url db)) = true →
  DbOpened (db_url db) ∈ (database_outcome sqlite_open db_migrate cfg).2 ∧
  ∀ m, db_migrations db = Some m → Js.truthy (VStr m) = true →
       DbMigrated m ∈ (database_outcome sqlite_open db_migrate cfg).2.
Proof.
  unfold database_outcome. intros Hok Hdb Hurl. rewrite Hdb, Hurl in *.
  destruct (sqlite_open (db_url db)); [done|].
  destruct (db_migrations db) as [m|].
  - destruct (Js.truthy (VStr m)) eqn:Hm.
    + destruct (db_migrate m); [done|]. split; [apply elem_of_cons; by left|].
      intros m' [= <-] _. apply elem_of_cons. right. apply elem_of_cons. by left.
    + split; [apply elem_of_cons; by left|]. intros m' [= <-] Hm'. congruence.
  - split; [apply elem_of_cons; by left|]. done.
Qed.

Lemma route_effects_are_routes routes :
  Forall is_route_effect (route_effects routes).
Proof.
  unfold route_effects. apply Forall_forall. intros ev Hin.
  apply list_elem_of_In, in_flat_map in Hin as ([path route] & _ & Hin).
  apply in_map_iff in Hin as ([method handler] & <- & _). exact I.
Qed.

Lemma run_effects_after {A} w (c : completion A) data impl evs :
  run_effects w (c, after (World data impl (w_trace w)) evs) = evs.
Proof. unfold run_effects, after. simpl. by rewrite drop_app_length. Qed.

(** The effects of a run of [apply] come in three parts: those of the
    database block and the middleware, then routes, then the listening
    server; a part is empty when [apply] failed before it. *)
Lemma apply_run cfg w :
  let r := apply sqlite_open db_migrate app_register app_listen cfg w in
  let db := database_outcome sqlite_open db_migrate cfg in
  let port := port_of cfg in
  ∃ pre rts tl,
    run_effects w r = pre ++ rts ++ tl ∧
    Forall (λ ev, ¬ is_route_effect ev ∧ ¬ is_listen_effect ev) pre ∧
    Forall is_route_effect rts ∧
    Forall is_listen_effect tl ∧
    (∀ e, db.1 = Throw e → r.1 = Throw e ∧ pre = db.2 ∧ rts = [] ∧ tl = []) ∧
    (r.1 = Normal tt →
     db.1 = Normal tt ∧
     pre = db.2 ++ [AppUse ["morgan"; "bodyParser.json"]] ∧
     rts = route_effects (cfg_routes cfg) ∧
     tl = [AppListen port; Console "log" (started port)]).
Proof.
  intros r db port. subst r. rewrite apply_outcome. fold db port.
  pose proof (database_outcome_quiet cfg) as Hquiet. fold db in Hquiet.
  destruct (routes_outcome_routes (cfg_routes cfg)) as [Hroutes Hall].
  assert (Huse : Forall (λ ev, ¬ is_route_effect ev ∧ ¬ is_listen_effect ev)
                   (db.2 ++ [AppUse ["morgan"; "bodyParser.json"]])).
  { apply Forall_app. split; [done|]. repeat constructor; simpl; tauto. }
  destruct db as [[[]|e|] evs]; simpl in *.
  - destruct (routes_outcome app_register (cfg_routes cfg)) as [[[]|e|] revs]; simpl in *.
    + exists (evs ++ [AppUse ["morgan"; "bodyParser.json"]]), revs, (listening app_listen port).
      rewrite run_effects_after. split; [by rewrite <- app_assoc|].
      split; [done|]. split; [done|]. split.
      { unfold listening. destruct (app_listen port); repeat constructor. }
      split; [done|]. intros Hok. unfold listening. rewrite Hok.
      by rewrite Hall.
    + exists (evs ++ [AppUse ["morgan"; "bodyParser.json"]]), revs, [].
      rewrite run_effects_after. split; [by rewrite app_nil_r, <- app_assoc|].
      done.
    + exists (evs ++ [AppUse ["morgan"; "bodyParser.json"]]), revs, [].
      rewrite run_effects_after. split; [by rewrite app_nil_r, <- app_assoc|].
      done.
  - exists evs, [], []. rewrite run_effects_after.
    split; [by rewrite app_nil_r|]. split; [done|]. split; [done|].
    split; [done|]. split; [by intros e' [= ->]|done].
  - exists evs, [], []. rewrite run_effects_after.
    split; [by rewrite app_nil_r|]. done.
Qed.

Lemma apply_installs_fetch cfg w :
  w_fetch (apply sqlite_open db_migrate app_register app_listen cfg w).2
  = Loopback.FetchInstalled (port_of cfg).
Proof.
  rewrite apply_outcome.
  destruct (database_outcome sqlite_open db_migrate cfg) as [[[]|e|] evs];
    simpl; [|done..].
  by destruct (routes_outcome app_register (cfg_routes cfg)) as [[[]|e|] revs].
Qed.

Lemma apply_sets_data cfg w :
  w_data (apply sqlite_open db_migrate app_register app_listen cfg w).2
  = default ∅ (cfg_data cfg).
Proof.
  rewrite apply_outcome.
  destruct (database_outcome sqlite_open db_migrate cfg) as [[[]|e|] evs];
    simpl; [|done..].
  by destruct (routes_outcome app_register (cfg_routes cfg)) as [[[]|e|] revs].
Qed.

End startup_facts.

(** Positions in a list that splits into a part without [Q] and a part
    without [P]. *)
Lemma split_order {A} (P Q : A → Prop) (l1 l2 : list A) i j x y :
  Forall (λ a, ¬ Q a) l1 → Forall (λ a, ¬ P a) l2 →
  (l1 ++ l2) !! i = Some x → P x → (l1 ++ l2) !! j = Some y → Q y → i < j.
Proof.
  intros H1 H2 Hi HP Hj HQ.
  apply lookup_app_Some in Hi as [Hi | [Hlen Hi]].
  - apply lookup_app_Some in Hj as [Hj | [Hlen Hj]].
    + exfalso. rewrite Forall_forall in H1.
      apply (H1 y); [|done]. apply list_elem_of_lookup. by exists j.
    + apply lookup_lt_Some in Hi. lia.
  - exfalso. rewrite Forall_forall in H2.
    apply (H2 x); [|done]. apply list_elem_of_lookup. by exists (i - length l1).
Qed.

(** C5. In a run of [apply], the database is opened and migrated before
    any route is registered, and the server is started, and reports that it
    listens, only after every route is registered; when opening the
    configured database or migrating it fails, [apply] fails and the run
    registers no route and never listens; when [apply] succeeds, the run ends
    with all declared routes followed by the listening server, the database
    opened and migrated before them. *)
Theorem startup_order sqlite_open db_migrate app_register app_listen cfg w :
  let r := apply sqlite_open db_migrate app_register app_listen cfg w in
  let run := run_effects w r in
  (∀ i j ev ev', run !! i = Some ev → is_db_effect ev →
                 run !! j = Some ev' → is_route_effect ev' → i < j) ∧
  (∀ i j ev ev', run !! i = Some ev → is_route_effect ev →
                 run !! j = Some ev' → is_listen_effect ev' → i < j) ∧
  (database_fails sqlite_open db_migrate cfg →
   (∃ e, r.1 = Throw e) ∧
   Forall (λ ev, ¬ is_route_effect ev ∧ ¬ is_listen_effect ev) run) ∧
  (r.1 = Normal tt →
   (∃ pre, run = pre ++ route_effects (cfg_routes cfg)
                 ++ [AppListen (port_of cfg);
                     Console "log" (started (port_of cfg))]) ∧
   ∀ db, cfg_db cfg = Some db → Js.truthy (VStr (db_url db)) = true →
         DbOpened (db_url db) ∈ run ∧
         ∀ m, db_migrations db = Some m → Js.truthy (VStr m) = true →
              DbMigrated m ∈ run).
Proof.
  intros r run. subst run r.
  destruct (apply_run sqlite_open db_migrate app_register app_listen cfg w)
    as (pre & rts & tl & Hrun & Hpre & Hrts & Htl & Hfail & Hok).
  simpl in Hfail, Hok.
  assert (Hno_route : Forall (λ ev, ¬ is_route_effect ev) pre).
  { eapply Forall_impl; [exact Hpre|]. simpl. tauto. }
  assert (Hno_db : Forall (λ ev, ¬ is_db_effect ev) (rts ++ tl)).
  { apply Forall_app. split.
    - eapply Forall_impl; [exact Hrts|]. intros [] ?; simpl in *; tauto.
    - eapply Forall_impl; [exact Htl|]. intros [] ?; simpl in *; tauto. }
  assert (Hno_listen : Forall (λ ev, ¬ is_listen_effect ev) (pre ++ rts)).
  { apply Forall_app. split.
    - eapply Forall_impl; [exact Hpre|]. simpl. tauto.
    - eapply Forall_impl; [exact Hrts|]. intros [] ?; simpl in *; tauto. }
  assert (Hlast : Forall (λ ev, ¬ is_route_effect ev) tl).
  { eapply Forall_impl; [exact Htl|]. intros [] ?; simpl in *; tauto. }
  split; [|split; [|split]].
  - intros i j ev ev' Hi Hdb Hj Hroute. rewrite Hrun in Hi, Hj.
    exact (split_order is_db_effect is_route_effect _ _ i j ev ev'
             Hno_route Hno_db Hi Hdb Hj Hroute).
  - intros i j ev ev' Hi Hroute Hj Hlisten. rewrite Hrun, app_assoc in Hi, Hj.
    exact (split_order is_route_effect is_listen_effect _ _ i j ev ev'
             Hno_listen Hlast Hi Hroute Hj Hlisten).
  - intros Hdbfail.
    destruct (database_outcome_fails sqlite_open db_migrate cfg Hdbfail) as [e He].
    destruct (Hfail e He) as (Hres & Hp & -> & ->). split; [by exists e|].
    rewrite Hrun. simpl. by rewrite app_nil_r.
  - intros Hres. destruct (Hok Hres) as (Hdb & -> & -> & ->). split.
    + eexists. exact Hrun.
    + intros db Hcfg Hurl.
      destruct (database_outcome_complete sqlite_open db_migrate cfg db Hdb Hcfg Hurl)
        as [Hopened Hmigrated].
      rewrite Hrun. split.
      * apply elem_of_app. left. apply elem_of_app. by left.
      * intros m Hm Htruthy. apply elem_of_app. left. apply elem_of_app. left.
        by apply Hmigrated.
Qed.

Lemma startup_order_witness :
  let sqlite_open : string → option value :=
    λ _, Some (VError "Error" "SQLITE_CANTOPEN: unable to open database file") in
  let db_migrate : string → option value := λ _, None in
  let app_listen : float → completion unit := λ _, Normal tt in
  let cfg := MkConfig (Some 8000%float) None None
               (Some (MkDb "./db.sqlite" (Some "src/migrations")))
               [("/hello", [("get", λ _, Exec.ret (VStr "Hello"))])] in
  let r := apply sqlite_open db_migrate routes_only app_listen cfg loaded in
  (∃ e, r.1 = Throw e) ∧
  Forall (λ ev, ¬ is_route_effect ev ∧ ¬ is_listen_effect ev) (run_effects loaded r).
Proof.
  apply (proj1 (proj2 (proj2
    (startup_order
       (λ _, Some (VError "Error" "SQLITE_CANTOPEN: unable to open database file"))
       (λ _, None) routes_only (λ _, Normal tt)
       (MkConfig (Some 8000%float) None None
          (Some (MkDb "./db.sqlite" (Some "src/migrations")))
          [("/hello", [("get", λ _, Exec.ret (VStr "Hello"))])])
       loaded)))).
  exists (MkDb "./db.sqlite" (Some "src/migrations")).
  split; [reflexivity|]. split; [reflexivity|]. left. eexists. reflexivity.
Defined.

(** A run of [apply] on a configuration shaped like the one of
    [src/main.ts], with a database that opens and migrates and a port that
    is free. *)
Example startup_of_main :
  run_effects loaded
    (apply (λ _, None) (λ _, None) routes_only (λ _, Normal tt)
       (MkConfig (Some 8000%float) None None
          (Some (MkDb "./db.sqlite" (Some "src/migrations")))
          [("/hello", [("get", λ _, Exec.ret (VStr "Hello"))]);
           ("/db", [("get", λ _, Exec.ret VNull); ("post", λ _, Exec.ret VNull)])])
       loaded)
  = [DbOpened "./db.sqlite"; DbMigrated "src/migrations"; AppUse ["sqlite"];
     AppUse ["morgan"; "bodyParser.json"];
     AppRoute "get" "/hello"; AppRoute "get" "/db"; AppRoute "post" "/db";
     AppListen 8000; Console "log" (VStr "Server started! http://localhost:8000")].
Proof. vm_compute. reflexivity. Qed.

(** A route under a key that [app] has no method for: [apply] fails in
    the routing block, after the routes before it, and never listens; and a
    port that cannot be bound: the routes are registered, [app.listen] is
    called, and [apply] does not complete. *)
Example startup_that_stops :
  apply (λ _, None) (λ _, None) routes_only (λ _, Normal tt)
    (MkConfig None None None None
       [("/hello", [("get", λ _, Exec.ret (VStr "Hello"))]);
        ("/x", [("foo", λ _, Exec.ret VNull)])])
    loaded
  = (Throw (Js.type_error "app[method] is not a function"),
     World ∅ (Loopback.FetchInstalled 8000)
       [AppUse ["morgan"; "bodyParser.json"]; AppRoute "get" "/hello"]) ∧
  apply (λ _, None) (λ _, None) routes_only (λ _, Never)
    (MkConfig None None None None
       [("/hello", [("get", λ _, Exec.ret (VStr "Hello"))])])
    loaded
  = (Never,
     World ∅ (Loopback.FetchInstalled 8000)
       [AppUse ["morgan"; "bodyParser.json"]; AppRoute "get" "/hello";
        AppListen 8000]).
Proof. split; vm_compute; reflexivity. Qed.
(** ** Loopback client *)

Section loopback_facts.
Variable net : Loopback.http_request → completion Loopback.Response.
Variable JSON_parse : string → settled.
Variable JSON_stringify : value → option string.

Lemma perform_handles_body this c :
  Loopback.perform net JSON_parse JSON_stringify this c
  = Loopback.then_handle_body JSON_parse
      (net (Loopback.request_of JSON_stringify this c)).
Proof. by destruct c. Qed.

Lemma declared_request this c :
  Loopback.this_fetch this = Loopback.FetchDeclared →
  Loopback.url (Loopback.request_of JSON_stringify this c) = call_path c ∧
  header (Loopback.request_of JSON_stringify this c) "user-agent" = None.
Proof.
  intros Hdecl.
  destruct c; unfold Loopback.request_of, Loopback.get_request,
    Loopback.post_request, Loopback.put_request, Loopback.patch_request,
    Loopback.delete_request, Loopback.fetch_request; rewrite Hdecl; done.
Qed.

Lemma installed_request this port c :
  Loopback.this_fetch this = Loopback.FetchInstalled port →
  Loopback.url (Loopback.request_of JSON_stringify this c)
    = "http://localhost:" +:+ Js.number_to_string port +:+ call_path c ∧
  header (Loopback.request_of JSON_stringify this c) "user-agent"
    = Some (Loopback.user_agent this).
Proof.
  intros Hinst.
  destruct c; unfold Loopback.request_of, Loopback.get_request,
    Loopback.post_request, Loopback.put_request, Loopback.patch_request,
    Loopback.delete_request, Loopback.fetch_request; rewrite Hinst;
    (split; [done|]); unfold header; simpl; apply lookup_insert_eq.
Qed.

End loopback_facts.

(** C6, as the spec has it, fails: once [apply] has run, a call through
    [LOOPBACK] itself goes to [http://localhost:<port><path>] and carries the
    user-agent ["Loopback"]. *)
Lemma loopback_after_apply_rewrites_target :
  ¬ (∀ sqlite_open db_migrate app_register app_listen cfg w JSON_stringify c,
       let w' := (apply sqlite_open db_migrate app_register app_listen cfg w).2 in
       let r := Loopback.request_of JSON_stringify (LOOPBACK w') c in
       Loopback.url r = call_path c ∧ header r "user-agent" = None).
Proof.
  intros H.
  destruct (H (λ _, None) (λ _, None) routes_only (λ _, Normal tt)
              (MkConfig None None None None []) loaded
              (λ _, None) (Loopback.Get "/hello")) as [Hurl _].
  vm_compute in Hurl. discriminate Hurl.
Qed.

(** C6, amended.  While [LOOPBACK] still has the [fetch] it is declared
    with, a call through it is issued to the path it was given, and no
    user-agent header is added.  Once [apply] has run, whatever its
    outcome, the call is issued to [http://localhost:<port><path>] with the
    user-agent ["Loopback"]. *)
Theorem loopback_target JSON_stringify w c :
  (w_fetch w = Loopback.FetchDeclared →
   Loopback.url (Loopback.request_of JSON_stringify (LOOPBACK w) c) = call_path c ∧
   header (Loopback.request_of JSON_stringify (LOOPBACK w) c) "user-agent" = None) ∧
  (∀ sqlite_open db_migrate app_register app_listen cfg,
     let w' := (apply sqlite_open db_migrate app_register app_listen cfg w).2 in
     Loopback.url (Loopback.request_of JSON_stringify (LOOPBACK w') c)
       = "http://localhost:" +:+ Js.number_to_string (port_of cfg) +:+ call_path c ∧
     header (Loopback.request_of JSON_stringify (LOOPBACK w') c) "user-agent"
       = Some "Loopback").
Proof.
  split.
  - intros Hdecl. by apply declared_request.
  - intros sqlite_open db_migrate app_register app_listen cfg w'.
    apply (installed_request JSON_stringify (LOOPBACK w') (port_of cfg) c).
    apply apply_installs_fetch.
Qed.

Lemma loopback_target_witness :
  Loopback.url (Loopback.request_of (λ _, None) (LOOPBACK loaded)
                  (Loopback.Post "/db" VNull)) = "/db" ∧
  header (Loopback.request_of (λ _, None) (LOOPBACK loaded)
            (Loopback.Post "/db" VNull)) "user-agent" = None.
Proof.
  apply (proj1 (loopback_target (λ _, None) loaded (Loopback.Post "/db" VNull))).
  reflexivity.
Defined.

(** C7. Whatever the status of the response, a loopback call hands back the
    body of the response: parsed as JSON when the content-type contains
    [application/json], as the text it is otherwise.  Only a failure of
    [fetch] itself makes the call fail. *)
Theorem loopback_decodes_body net JSON_parse JSON_stringify this c resp :
  net (Loopback.request_of JSON_stringify this c) = Normal resp →
  let typ := default "" (Loopback.resp_headers resp !! "content-type") in
  (Js.includes "application/json" typ = true →
   Loopback.perform net JSON_parse JSON_stringify this c
   = JSON_parse (Loopback.resp_body resp)) ∧
  (Js.includes "application/json" typ = false →
   Loopback.perform net JSON_parse JSON_stringify this c
   = Fulfilled (VStr (Loopback.resp_body resp))).
Proof.
  intros Hnet typ. rewrite perform_handles_body, Hnet. simpl.
  unfold Loopback.handle_body. fold typ.
  split; intros ->; reflexivity.
Qed.

Lemma loopback_decodes_body_witness :
  let resp := Loopback.MkResponse 500
                {["content-type" := "text/html; charset=utf-8"]}
                "Error! Error: boom" in
  let net : Loopback.http_request → completion Loopback.Response :=
    λ _, Normal resp in
  let parse : string → settled := λ _, Rejected (VError "SyntaxError" "") in
  let this := Loopback.MkReceiver (Loopback.FetchInstalled 8000) None in
  Loopback.perform net parse (λ _, None) this (Loopback.Get "/hello")
  = Fulfilled (VStr "Error! Error: boom").
Proof.
  intros resp net parse this.
  apply (proj2 (loopback_decodes_body net parse (λ _, None) this
                  (Loopback.Get "/hello") resp eq_refl)).
  reflexivity.
Defined.

(** ** Database attachment *)

Lemma append_assoc (a b c : string) : (a +:+ b) +:+ c = a +:+ b +:+ c.
Proof.
  induction a as [|x a IH]; [reflexivity|].
  change (String x ((a +:+ b) +:+ c) = String x (a +:+ b +:+ c)).
  by rewrite IH.
Qed.

Lemma add_clause_number sql clause (x : float) :
  Js.truthy (VNum x) = true →
  add_clause sql clause (VNum x)
  = Normal (sql +:+ (clause +:+ Js.number_to_string x)).
Proof. intros Hx. unfold add_clause. by rewrite Hx. Qed.

Lemma add_clause_falsy sql clause v :
  Js.truthy v = false → add_clause sql clause v = Normal sql.
Proof. intros Hv. unfold add_clause. by rewrite Hv. Qed.

Lemma positive_truthy (x : float) : (0 <? x)%float = true → Js.truthy (VNum x) = true.
Proof. intros Hx. simpl. rewrite Hx. apply orb_true_r. Qed.

(** What [dump_table] does, by the text it builds and the answer of
    [db.all]. *)
Lemma dump_table_outcome db_all name limit offset w :
  dump_table db_all name limit offset w =
    match dump_table_sql name limit offset with
    | Normal sql =>
        match db_all sql with
        | Normal it => (Normal tt, after w [DbAll sql; Console "table" it])
        | Throw e => (Throw e, after w [DbAll sql])
        | Never => (Never, after w [DbAll sql])
        end
    | Throw e => (Throw e, w)
    | Never => (Never, w)
    end.
Proof.
  unfold dump_table, all, Exec.bind, Exec.lift, console, Exec.emit, after.
  destruct (dump_table_sql name limit offset) as [sql|e|]; simpl; [|done..].
  destruct (db_all sql); simpl; [|done..]. by rewrite <- app_assoc.
Qed.

(** C9. For a table name [T] and positive limit [L] and offset [O],
    [dump_table(T, L, O)] builds the text [SELECT * FROM T OFFSET O LIMIT L],
    the offset clause before the limit clause, with the numbers as the
    platform prints them, and this text is what it passes to [db.all];
    [dump_table("T", 10, 5)] reads [SELECT * FROM T OFFSET 5 LIMIT 10]. *)
Theorem dump_table_offset_then_limit db_all T (L O : float) w :
  (0 <? L)%float = true → (0 <? O)%float = true →
  dump_table_sql T (VNum L) (VNum O)
    = Normal ("SELECT * FROM " +:+ T +:+ " OFFSET " +:+ Js.number_to_string O
              +:+ " LIMIT " +:+ Js.number_to_string L) ∧
  (∃ rest, run_effects w (dump_table db_all T (VNum L) (VNum O) w)
           = DbAll ("SELECT * FROM " +:+ T +:+ " OFFSET " +:+ Js.number_to_string O
                    +:+ " LIMIT " +:+ Js.number_to_string L) :: rest) ∧
  dump_table_sql "T" (VNum 10) (VNum 5) = Normal "SELECT * FROM T OFFSET 5 LIMIT 10".
Proof.
  intros HL HO.
  assert (Hsql : dump_table_sql T (VNum L) (VNum O)
                 = Normal ("SELECT * FROM " +:+ T +:+ " OFFSET "
                           +:+ Js.number_to_string O
                           +:+ " LIMIT " +:+ Js.number_to_string L)).
  { unfold dump_table_sql.
    rewrite !add_clause_number by (by apply positive_truthy).
    by rewrite !append_assoc. }
  split; [exact Hsql|]. split; [|by vm_compute].
  rewrite dump_table_outcome, Hsql.
  destruct (db_all _); eexists; unfold run_effects, after; simpl;
    by rewrite drop_app_length.
Qed.

Lemma dump_table_offset_then_limit_witness :
  dump_table_sql "Hello" (VNum 10) (VNum 5)
    = Normal ("SELECT * FROM " +:+ "Hello" +:+ " OFFSET " +:+ Js.number_to_string 5
              +:+ " LIMIT " +:+ Js.number_to_string 10).
Proof.
  apply (dump_table_offset_then_limit (λ _, Normal VNull) "Hello" 10 5 loaded);
    reflexivity.
Defined.

(** The same text for numbers that do not print as plain digits. *)
Example dump_table_of_large_numbers :
  dump_table_sql "T" (VNum 1e21) (VNum 1152921504606846976)
  = Normal "SELECT * FROM T OFFSET 1152921504606847000 LIMIT 1e+21".
Proof. vm_compute. reflexivity. Qed.

(** [dump_table("Hello")], as [src/main.ts] calls it. *)
Example dump_table_of_main :
  dump_table_sql "Hello" VUndefined VUndefined = Normal "SELECT * FROM Hello".
Proof. reflexivity. Qed.

(** ** The service at work *)

(** An update closure whose promise fulfils writes when the promise
    settles, on the dictionary as it then is. *)
Lemma async_update_writes_on_settle (later : Js.dict) k val :
  Js.await val = Fulfilled val →
  settle_update k (VPromise (Fulfilled val)) later
  = (Fulfilled val, Js.prop_set later k val).
Proof. intros Hval. unfold settle_update. simpl. by rewrite Hval. Qed.

(** [GET /world] on a service whose [GET /hello] answers [Hello] as text:
    the loopback call carries the caller's user-agent, and the response is
    [Hello world!]. *)
Example world_says_hello_world :
  let net : Loopback.http_request → completion Loopback.Response := λ r,
    if String.eqb (Loopback.url r) "http://localhost:8000/hello"
       && bool_decide (header r "user-agent" = Some "curl/8.0")
    then Normal (Loopback.MkResponse 200 ∅ "Hello")
    else Throw (VError "TypeError" "fetch failed") in
  let parse : string → settled := λ _, Rejected (VError "SyntaxError" "") in
  let cfg := MkConfig None None None None
               [("/hello", [("get", hello)]);
                ("/world", [("get", hello_world net parse)])] in
  let up := (apply (λ _, None) (λ _, None) routes_only (λ _, Normal tt) cfg loaded).2 in
  let req := Request {["user-agent" := "curl/8.0"]} VUndefined None None false in
  run_effects up (apply_route (initialised cfg) (hello_world net parse) req up)
  = [Res "end" (VStr "Hello world!")].
Proof. vm_compute. reflexivity. Qed.

(** ** [joinObject] *)

Section join_facts.
Implicit Types (base arg : gmap string value) (args : list (gmap string value)).




End join_facts.



(** X2. A property that no argument has keeps the value it has in [base]
    (and stays absent if [base] does not have it); with no arguments the
    result is [base]. *)
Theorem joinObject_keeps_base (base : gmap string value) args k :
  Forall (λ o : gmap string value, o !! k = None) args →
  joinObject base args !! k = base !! k.
Proof.
  revert base. induction args as [|arg args IH]; intros base Hmiss; [done|].
  apply Forall_cons in Hmiss as [Harg Hmiss].
  change (joinObject (object_assign base arg) args !! k = base !! k).
  rewrite IH by done. unfold object_assign. by apply lookup_union_r.
Qed.

Lemma joinObject_keeps_base_witness :
  joinObject {["a" := VNum 1]} [{["b" := VNull]}; ∅] !! "a"
  = ({["a" := VNum 1]} : gmap string value) !! "a".
Proof.
  apply (joinObject_keeps_base {["a" := VNum 1]} [{["b" := VNull]}; ∅] "a").
  repeat constructor.
Defined.



(** ** More on the keyed data store *)

(** X4. A call of the accessor for a key other than [__proto__], and the
    settling of a deferred update of that key, leave what every other key
    reads as unchanged. *)
Theorem accessor_touches_one_key (data : Js.dict) k k' d update out :
  k ≠ "__proto__" → k ≠ k' →
  Js.prop_get (data_fn k d update data).2 k' = Js.prop_get data k' ∧
  Js.prop_get (settle_update k out data).2 k' = Js.prop_get data k'.
Proof.
  intros Hp Hne. split.
  - unfold data_fn.
    destruct (String.eqb (Js.typeof (Js.prop_get data k)) "undefined"); simpl.
    + rewrite prop_set_insert by done. by apply prop_get_insert_ne.
    + destruct update as [f|]; [|done].
      destruct (f (Js.prop_get data k)) as [res|e|]; [|done..].
      destruct (Js.instanceof_Promise res); simpl; [done|].
      rewrite prop_set_insert by done. by apply prop_get_insert_ne.
  - unfold settle_update. destruct (Js.await out) as [val|e|]; simpl; [| |done].
    + rewrite prop_set_insert by done. by apply prop_get_insert_ne.
    + by destruct (Js.opt_to_string e).
Qed.

Lemma accessor_touches_one_key_witness :
  Js.prop_get (data_fn "hits" (VNum 0) (Some increment) {["user" := VStr "ann"]}).2
    "user"
    = Js.prop_get {["user" := VStr "ann"]} "user" ∧
  Js.prop_get
    (settle_update "hits" (VPromise (Fulfilled (VNum 7))) {["user" := VStr "ann"]}).2
    "user"
    = Js.prop_get {["user" := VStr "ann"]} "user".
Proof.
  apply (accessor_touches_one_key {["user" := VStr "ann"]} "hits" "user" (VNum 0)
           (Some increment) (VPromise (Fulfilled (VNum 7)))); discriminate.
Defined.

(** The call that X4 leaves out: an update of [__proto__] that returns an
    object makes it the prototype of the dictionary, and other keys are then
    read through it. *)
Example update_of_proto_changes_other_keys :
  let data := (data_fn "__proto__" VUndefined
                 (Some (λ _, Normal (VObject [("hits", VNum 5)]))) ∅).2 in
  Js.prop_get ∅ "hits" = VUndefined ∧ Js.prop_get data "hits" = VNum 5.
Proof. split; reflexivity. Qed.

(** X5. When the update closure throws on a present value, the exception
    comes out of the accessor and nothing is written. *)
Theorem throwing_update_keeps_store (data : Js.dict) k d v (f : closure) e :
  data !! k = Some v → v ≠ VUndefined → f v = Throw e →
  data_fn k d (Some f) data = (Raised e, data).
Proof.
  intros Hk Hv Hf. unfold data_fn. rewrite (prop_get_own data k v) by done.
  by rewrite typeof_defined, Hf.
Qed.

Lemma throwing_update_keeps_store_witness :
  data_fn "hits" VUndefined (Some (λ _, Throw (VError "Error" "no")))
    {["hits" := VNum 1]}
  = (Raised (VError "Error" "no"), {["hits" := VNum 1]}).
Proof.
  apply (throwing_update_keeps_store {["hits" := VNum 1]} "hits" VUndefined
           (VNum 1) (λ _, Throw (VError "Error" "no")) (VError "Error" "no"));
    first [reflexivity | discriminate].
Defined.

Lemma calls_increment (data : Js.dict) k (d : float) m :
  Js.prop_get data k = VUndefined →
  calls (S m) k (VNum d) (Some increment) data
  = <[k := VNum (Nat.iter m (λ x, x + 1)%float d)]> data.
Proof.
  intros Hget. induction m as [|m IH].
  - simpl. by rewrite data_fn_undefined.
  - change (calls (S (S m)) k (VNum d) (Some increment) data)
      with (data_fn k (VNum d) (Some increment)
              (calls (S m) k (VNum d) (Some increment) data)).2.
    rewrite IH.
    rewrite (data_fn_sync_update _ k (VNum d)
               (VNum (Nat.iter m (λ x, x + 1)%float d)) increment
               (VNum (Nat.iter (S m) (λ x, x + 1)%float d)));
      [|apply dict_lookup_insert|done|done|done].
    simpl. by rewrite dict_insert_insert.
Qed.

(** X6. A counter kept with [data(key, d, v => v + 1)] on a key that reads
    as [undefined]: the first call only stores the default [d] and does not
    run the update, so after [m + 1] calls the key holds [d] incremented [m]
    times, in the arithmetic of doubles, and that is what the last call
    returned. *)
Theorem counter_counts_from_default (data : Js.dict) k (d : float) m :
  Js.prop_get data k = VUndefined →
  calls (S m) k (VNum d) (Some increment) data !! k
    = Some (VNum (Nat.iter m (λ x, x + 1)%float d)) ∧
  (data_fn k (VNum d) (Some increment) (calls m k (VNum d) (Some increment) data)).1
    = Returned (VNum (Nat.iter m (λ x, x + 1)%float d)).
Proof.
  intros Hget. split.
  - rewrite calls_increment by done. apply dict_lookup_insert.
  - destruct m as [|m].
    + simpl. by rewrite data_fn_undefined.
    + rewrite calls_increment by done.
      by rewrite (data_fn_sync_update _ k (VNum d)
                    (VNum (Nat.iter m (λ x, x + 1)%float d)) increment
                    (VNum (Nat.iter (S m) (λ x, x + 1)%float d)))
        by first [apply dict_lookup_insert | done].
Qed.

Lemma counter_counts_from_default_witness :
  calls 3 "hits" (VNum 0) (Some increment) ∅ !! "hits"
    = Some (VNum (Nat.iter 2 (λ x, x + 1)%float 0%float)) ∧
  (data_fn "hits" (VNum 0) (Some increment)
     (calls 2 "hits" (VNum 0) (Some increment) ∅)).1
    = Returned (VNum (Nat.iter 2 (λ x, x + 1)%float 0%float)).
Proof.
  apply (counter_counts_from_default ∅ "hits" 0%float 2). reflexivity.
Defined.

(** The counter after three calls holds 2; one that has reached [2 ^ 53]
    stays there. *)
Example counter_after_three_calls :
  calls 3 "hits" (VNum 0) (Some increment) ∅ !! "hits" = Some (VNum 2) ∧
  calls 3 "hits" (VNum 9007199254740992) (Some increment) ∅ !! "hits"
    = Some (VNum 9007199254740992).
Proof. split; vm_compute; reflexivity. Qed.

(** X7. Two asynchronous increments of a key that holds the number [n],
    both started before either settles: neither call writes, a read in
    between still sees [n], both promises fulfil with [n + 1], and once both
    have settled the key holds [n + 1]: one increment is lost. *)
Theorem concurrent_async_increments_lose_one (data : Js.dict) k (n : float) d :
  data !! k = Some (VNum n) →
  let out := VPromise (Fulfilled (VNum (n + 1))) in
  data_fn k d (Some async_increment) data = (Deferred k out, data) ∧
  data_fn k VUndefined None data = (Returned (VNum n), data) ∧
  settle_update k out data = (Fulfilled (VNum (n + 1)), <[k := VNum (n + 1)]> data) ∧
  settle_update k out (<[k := VNum (n + 1)]> data)
    = (Fulfilled (VNum (n + 1)), <[k := VNum (n + 1)]> data).
Proof.
  intros Hk out. split; [|split; [|split]].
  - by apply (data_fn_async_update data k d (VNum n)).
  - by apply data_fn_read.
  - unfold settle_update. simpl. by rewrite prop_set_own.
  - unfold settle_update. simpl.
    rewrite prop_set_own by (by rewrite dict_lookup_insert).
    by rewrite dict_insert_insert.
Qed.

Lemma concurrent_async_increments_lose_one_witness :
  let data : Js.dict := {["hits" := VNum 5]} in
  let out := VPromise (Fulfilled (VNum (5 + 1))) in
  data_fn "hits" VUndefined (Some async_increment) data = (Deferred "hits" out, data) ∧
  data_fn "hits" VUndefined None data = (Returned (VNum 5), data) ∧
  settle_update "hits" out data
    = (Fulfilled (VNum (5 + 1)), <["hits" := VNum (5 + 1)]> data) ∧
  settle_update "hits" out (<["hits" := VNum (5 + 1)]> data)
    = (Fulfilled (VNum (5 + 1)), <["hits" := VNum (5 + 1)]> data).
Proof.
  apply (concurrent_async_increments_lose_one {["hits" := VNum 5]} "hits" 5 VUndefined).
  reflexivity.
Defined.

(** X8. When a deferred update settles, the dictionary is written only if
    the closure's promise fulfils; a key that the dictionary has, or that
    reads as [undefined], then holds the value, over whatever was there, and
    the caller's promise fulfils with it.  If the closure's promise rejects,
    the caller's promise rejects with [undefined] for a reason that is [null]
    or [undefined], with the text of an error or the string itself for an
    error or a string, and is left pending for an object whose [toString] is
    not a function. *)
Theorem deferred_update_settles (later : Js.dict) k out :
  (∀ val, Js.await out = Fulfilled val →
          is_Some (later !! k) ∨ Js.prop_get later k = VUndefined →
          settle_update k out later = (Fulfilled val, <[k := val]> later)) ∧
  ((∀ val, Js.await out ≠ Fulfilled val) → (settle_update k out later).2 = later) ∧
  (Js.await out = Rejected VUndefined ∨ Js.await out = Rejected VNull →
   (settle_update k out later).1 = Rejected VUndefined) ∧
  (∀ name message, Js.await out = Rejected (VError name message) →
     (settle_update k out later).1
     = Rejected (VStr (Js.error_to_string name message))) ∧
  (∀ s, Js.await out = Rejected (VStr s) →
     (settle_update k out later).1 = Rejected (VStr s)) ∧
  (∀ fields v, Js.await out = Rejected (VObject fields) →
     Js.field "toString" fields = Some v → (∀ f, v ≠ VNative f) →
     (settle_update k out later).1 = Pending).
Proof.
  unfold settle_update. repeat split.
  - intros val -> [Hown | Hundef].
    + by rewrite prop_set_own.
    + by rewrite prop_set_undefined.
  - intros Hnot. destruct (Js.await out) as [val|e|]; [|by destruct (Js.opt_to_string e)|done].
    by destruct (Hnot val).
  - intros [-> | ->]; reflexivity.
  - intros name message ->. reflexivity.
  - intros s ->. reflexivity.
  - intros fields v -> Hfield Hv. simpl. rewrite Hfield.
    destruct v; try reflexivity. by destruct (Hv name).
Qed.

Lemma deferred_update_settles_witness :
  (settle_update "hits" (VPromise (Rejected (VError "Error" "boom"))) ∅).1
  = Rejected (VStr (Js.error_to_string "Error" "boom")).
Proof.
  apply (proj1 (proj2 (proj2 (proj2
           (deferred_update_settles ∅ "hits"
              (VPromise (Rejected (VError "Error" "boom")))))))
           "Error" "boom").
  reflexivity.
Defined.

(** ** More on the route application engine *)



(** X10. Once [apply] has installed its [fetch], a loopback call made on
    the request a handler receives goes to [http://localhost:<port><path>] and
    carries the user-agent of that request, or ["Loopback"] when the request
    has none or an empty one. *)
Theorem handler_loopback_forwards_identity cfg w req port JSON_stringify c :
  w_fetch w = Loopback.FetchInstalled port →
  ∃ this,
    as_receiver (augmented cfg w req) = Some this ∧
    Loopback.url (Loopback.request_of JSON_stringify this c)
      = "http://localhost:" +:+ Js.number_to_string port +:+ call_path c ∧
    header (Loopback.request_of JSON_stringify this c) "user-agent"
      = Some (match req_headers req !! "user-agent" with
              | Some ua => if String.eqb ua "" then "Loopback" else ua
              | None => "Loopback"
              end).
Proof.
  intros Hinst. eexists. split; [reflexivity|].
  rewrite Hinst.
  apply (installed_request JSON_stringify
           (Loopback.MkReceiver (Loopback.FetchInstalled port) (Some (req_headers req)))
           port c).
  reflexivity.
Qed.

Lemma handler_loopback_forwards_identity_witness :
  let req := Request {["user-agent" := "curl/8.0"]} VUndefined None None false in
  let w := World ∅ (Loopback.FetchInstalled 8000) [] in
  ∃ this,
    as_receiver (augmented (MkConfig None None None None []) w req) = Some this ∧
    Loopback.url (Loopback.request_of (λ _, None) this (Loopback.Get "/hello"))
      = "http://localhost:" +:+ Js.number_to_string 8000
        +:+ call_path (Loopback.Get "/hello") ∧
    header (Loopback.request_of (λ _, None) this (Loopback.Get "/hello")) "user-agent"
      = Some (match req_headers req !! "user-agent" with
              | Some ua => if String.eqb ua "" then "Loopback" else ua
              | None => "Loopback"
              end).
Proof.
  intros req w.
  apply (handler_loopback_forwards_identity (MkConfig None None None None []) w req
           8000 (λ _, None) (Loopback.Get "/hello")).
  reflexivity.
Defined.

(** ** More on startup *)

Section startup_more.
Variable sqlite_open : string → option value.
Variable db_migrate : string → option value.
Variable app_register : string → string → completion unit.
Variable app_listen : float → completion unit.
Implicit Types (cfg : Config) (w : world).

Lemma route_effects_declared (routes : list (string * list (string * Route))) m p :
  AppRoute m p ∈ route_effects routes ↔
  ∃ route h, (p, route) ∈ routes ∧ (m, h) ∈ route.
Proof.
  unfold route_effects. rewrite list_elem_of_In, in_flat_map. split.
  - intros ([path route] & Hin & Hev).
    apply in_map_iff in Hev as ([method h] & [= -> ->] & Hm).
    exists route, h. by rewrite !list_elem_of_In.
  - intros (route & h & Hin & Hm). exists (p, route).
    rewrite list_elem_of_In in Hin. split; [done|].
    apply in_map_iff. exists (m, h). by rewrite list_elem_of_In in Hm.
Qed.

Lemma listening_port port q :
  AppListen q ∈ listening app_listen port → q = port.
Proof.
  unfold listening. intros Hin.
  apply elem_of_cons in Hin as [[= ->]|Hin]; [done|].
  destruct (app_listen port); [|by apply elem_of_nil in Hin..].
  apply list_elem_of_singleton in Hin. discriminate.
Qed.

Lemma listen_in_run cfg w q :
  AppListen q ∈ run_effects w (apply sqlite_open db_migrate app_register app_listen cfg w) →
  q = port_of cfg.
Proof.
  rewrite apply_outcome.
  pose proof (database_outcome_quiet sqlite_open db_migrate cfg) as Hquiet.
  destruct (routes_outcome_routes app_register (cfg_routes cfg)) as [Hroutes _].
  rewrite Forall_forall in Hquiet. rewrite Forall_forall in Hroutes.
  assert (Hdb : ∀ q, ¬ AppListen q ∈ (database_outcome sqlite_open db_migrate cfg).2).
  { intros q' Hin. destruct (Hquiet _ Hin) as [_ Hl]. by destruct Hl. }
  assert (Hrt : ∀ q, ¬ AppListen q ∈ (routes_outcome app_register (cfg_routes cfg)).2).
  { intros q' Hin. by destruct (Hroutes _ Hin). }
  destruct (database_outcome sqlite_open db_migrate cfg) as [[[]|e|] evs];
    simpl in *.
  - destruct (routes_outcome app_register (cfg_routes cfg)) as [[[]|e|] revs]; simpl in *;
      rewrite run_effects_after; intros Hin.
    + apply elem_of_app in Hin as [Hin|Hin]; [by destruct (Hdb q)|].
      apply elem_of_cons in Hin as [Hin|Hin]; [discriminate|].
      apply elem_of_app in Hin as [Hin|Hin]; [by destruct (Hrt q)|].
      by apply listening_port.
    + apply elem_of_app in Hin as [Hin|Hin]; [by destruct (Hdb q)|].
      apply elem_of_cons in Hin as [Hin|Hin]; [discriminate|].
      by destruct (Hrt q).
    + apply elem_of_app in Hin as [Hin|Hin]; [by destruct (Hdb q)|].
      apply elem_of_cons in Hin as [Hin|Hin]; [discriminate|].
      by destruct (Hrt q).
  - rewrite run_effects_after. intros Hin. by destruct (Hdb q).
  - rewrite run_effects_after. intros Hin. by destruct (Hdb q).
Qed.

(** When [app] takes every route of the configuration, the routing block
    registers every declared route and completes. *)
Lemma routes_outcome_declared cfg :
  routes_routable app_register cfg →
  routes_outcome app_register (cfg_routes cfg) = (Normal tt, route_effects (cfg_routes cfg)).
Proof.
  intros Hok. pose proof (routes_outcome_routable app_register cfg Hok) as Hc.
  destruct (routes_outcome_routes app_register (cfg_routes cfg)) as [_ Hall].
  specialize (Hall Hc).
  destruct (routes_outcome app_register (cfg_routes cfg)) as [c evs]; simpl in *. by subst.
Qed.

(** A run of [apply] whose database block leaves [(Normal tt, evs)]. *)
Lemma apply_past_database cfg w evs :
  database_outcome sqlite_open db_migrate cfg = (Normal tt, evs) →
  routes_routable app_register cfg →
  let r := apply sqlite_open db_migrate app_register app_listen cfg w in
  r.1 = app_listen (port_of cfg) ∧
  run_effects w r
  = evs ++ AppUse ["morgan"; "bodyParser.json"]
    :: route_effects (cfg_routes cfg) ++ listening app_listen (port_of cfg).
Proof.
  intros Hdb Hok r. subst r. rewrite apply_outcome, Hdb.
  rewrite (routes_outcome_declared cfg Hok). simpl.
  by rewrite run_effects_after.
Qed.

End startup_more.

(** X11. Without a database (no [db] in the configuration, or an empty
    [url]) [apply] never calls sqlite: the run is the same whatever sqlite
    would have done, and has no database effect.  When [app] takes every
    route of the configuration, the run installs the logging and body
    middleware, registers the routes and calls [app.listen], and [apply] ends
    as that call does, with the log line only if the server listens. *)
Theorem startup_without_database sqlite_open db_migrate app_register app_listen cfg w :
  cfg_db cfg = None ∨ (∃ db, cfg_db cfg = Some db ∧ db_url db = "") →
  let r := apply sqlite_open db_migrate app_register app_listen cfg w in
  (∀ sqlite_open' db_migrate',
     apply sqlite_open' db_migrate' app_register app_listen cfg w = r) ∧
  Forall (λ ev, ¬ is_db_effect ev) (run_effects w r) ∧
  (routes_routable app_register cfg →
   r.1 = app_listen (port_of cfg) ∧
   run_effects w r
   = AppUse ["morgan"; "bodyParser.json"]
     :: route_effects (cfg_routes cfg) ++ listening app_listen (port_of cfg)).
Proof.
  intros Hnodb r. subst r.
  assert (Hout : ∀ so dm, database_outcome so dm cfg = (Normal tt, [])).
  { intros so dm. unfold database_outcome.
    destruct Hnodb as [-> | (db & -> & ->)]; done. }
  split; [|split].
  - intros so dm. by rewrite !apply_outcome, !Hout.
  - rewrite apply_outcome, Hout. simpl.
    destruct (routes_outcome_routes app_register (cfg_routes cfg)) as [Hroutes _].
    assert (Hrt : Forall (λ ev, ¬ is_db_effect ev) (routes_outcome app_register (cfg_routes cfg)).2).
    { eapply Forall_impl; [exact Hroutes|]. intros [] Hr; simpl in *; tauto. }
    destruct (routes_outcome app_register (cfg_routes cfg)) as [[[]|e|] revs]; simpl in *;
      rewrite run_effects_after; constructor; simpl; try tauto; try done.
    apply Forall_app. split; [done|].
    unfold listening. destruct (app_listen (port_of cfg));
      repeat constructor; simpl; tauto.
  - intros Hok.
    apply (apply_past_database sqlite_open db_migrate app_register app_listen cfg w []);
      [apply Hout | done].
Qed.

Lemma startup_without_database_witness :
  let fails : string → option value := λ _, Some (VError "Error" "no sqlite") in
  let listens : float → completion unit := λ _, Normal tt in
  let cfg := MkConfig None None None (Some (MkDb "" (Some "src/migrations")))
               [("/hello", [("get", hello)])] in
  let r := apply fails fails routes_only listens cfg loaded in
  (∀ sqlite_open' db_migrate', apply sqlite_open' db_migrate' routes_only listens cfg loaded = r) ∧
  Forall (λ ev, ¬ is_db_effect ev) (run_effects loaded r) ∧
  (routes_routable routes_only cfg →
   r.1 = listens (port_of cfg) ∧
   run_effects loaded r
   = AppUse ["morgan"; "bodyParser.json"]
     :: route_effects (cfg_routes cfg) ++ listening listens (port_of cfg)).
Proof.
  intros fails listens cfg.
  apply (startup_without_database fails fails routes_only listens cfg loaded).
  right. exists (MkDb "" (Some "src/migrations")). split; reflexivity.
Defined.

(** X12. With a database that opens and no migrations path (omitted or
    empty), [db.migrate] is never called: the run is the same whatever a
    migration would have done, and has no migration in it.  When [app] takes
    every route of the configuration, the run opens the database, installs
    the middleware, registers the routes and calls [app.listen], and [apply]
    ends as that call does. *)
Theorem startup_skips_migrations sqlite_open db_migrate app_register app_listen cfg w db :
  cfg_db cfg = Some db → Js.truthy (VStr (db_url db)) = true →
  sqlite_open (db_url db) = None →
  db_migrations db = None ∨ db_migrations db = Some "" →
  let r := apply sqlite_open db_migrate app_register app_listen cfg w in
  (∀ db_migrate', apply sqlite_open db_migrate' app_register app_listen cfg w = r) ∧
  (∀ m, DbMigrated m ∉ run_effects w r) ∧
  (routes_routable app_register cfg →
   r.1 = app_listen (port_of cfg) ∧
   run_effects w r
   = [DbOpened (db_url db); AppUse ["sqlite"]; AppUse ["morgan"; "bodyParser.json"]]
     ++ route_effects (cfg_routes cfg) ++ listening app_listen (port_of cfg)).
Proof.
  intros Hdb Hurl Hopen Hmig r. subst r.
  assert (Hout : ∀ dm, database_outcome sqlite_open dm cfg
                 = (Normal tt, [DbOpened (db_url db); AppUse ["sqlite"]])).
  { intros dm. unfold database_outcome. rewrite Hdb, Hurl, Hopen.
    destruct Hmig as [-> | ->]; done. }
  split; [|split].
  - intros dm. by rewrite !apply_outcome, !Hout.
  - intros m. rewrite apply_outcome, Hout. simpl.
    destruct (routes_outcome_routes app_register (cfg_routes cfg)) as [Hroutes _].
    rewrite Forall_forall in Hroutes.
    assert (Hrt : DbMigrated m ∉ (routes_outcome app_register (cfg_routes cfg)).2).
    { intros Hin. by destruct (Hroutes _ Hin). }
    assert (Hl : DbMigrated m ∉ listening app_listen (port_of cfg)).
    { unfold listening. intros Hin.
      apply elem_of_cons in Hin as [Hin|Hin]; [discriminate|].
      destruct (app_listen (port_of cfg)); [|by apply elem_of_nil in Hin..].
      apply list_elem_of_singleton in Hin. discriminate. }
    destruct (routes_outcome app_register (cfg_routes cfg)) as [[[]|e|] revs]; simpl in *;
      rewrite run_effects_after; intros Hin;
      repeat (apply elem_of_cons in Hin as [Hin|Hin]; [discriminate|]);
      try done.
    apply elem_of_app in Hin as [Hin|Hin]; done.
  - intros Hok.
    apply (apply_past_database sqlite_open db_migrate app_register app_listen cfg w
             [DbOpened (db_url db); AppUse ["sqlite"]]); [apply Hout | done].
Qed.

Lemma startup_skips_migrations_witness :
  let fails : string → option value := λ _, Some (VError "Error" "bad script") in
  let listens : float → completion unit := λ _, Normal tt in
  let db := MkDb ":memory:" None in
  let cfg := MkConfig None None None (Some db) [] in
  let r := apply (λ _, None) fails routes_only listens cfg loaded in
  (∀ db_migrate', apply (λ _, None) db_migrate' routes_only listens cfg loaded = r) ∧
  (∀ m, DbMigrated m ∉ run_effects loaded r) ∧
  (routes_routable routes_only cfg →
   r.1 = listens (port_of cfg) ∧
   run_effects loaded r
   = [DbOpened (db_url db); AppUse ["sqlite"]; AppUse ["morgan"; "bodyParser.json"]]
     ++ route_effects (cfg_routes cfg) ++ listening listens (port_of cfg)).
Proof.
  intros fails listens db cfg.
  apply (startup_skips_migrations (λ _, None) fails routes_only listens cfg loaded db);
    first [reflexivity | by left].
Defined.

(** X13. One port serves everything: it is 8000 when [port] is omitted or
    falsy (0, -0 or NaN) and the configured port otherwise; the [fetch] that
    [apply] installs targets it, and it is the only port [apply] ever calls
    [app.listen] with. *)
Theorem one_port sqlite_open db_migrate app_register app_listen cfg w :
  (cfg_port cfg = None → port_of cfg = 8000%float) ∧
  (∀ p, cfg_port cfg = Some p → Js.truthy (VNum p) = false →
        port_of cfg = 8000%float) ∧
  (∀ p, cfg_port cfg = Some p → Js.truthy (VNum p) = true → port_of cfg = p) ∧
  w_fetch (apply sqlite_open db_migrate app_register app_listen cfg w).2
    = Loopback.FetchInstalled (port_of cfg) ∧
  (∀ q, AppListen q ∈ run_effects w (apply sqlite_open db_migrate app_register app_listen cfg w) →
        q = port_of cfg).
Proof.
  split; [|split; [|split; [|split]]].
  - unfold port_of. by intros ->.
  - intros p Hp Hf. unfold port_of. by rewrite Hp, Hf.
  - intros p Hp Ht. unfold port_of. by rewrite Hp, Ht.
  - apply apply_installs_fetch.
  - intros q. apply listen_in_run.
Qed.

Lemma one_port_witness :
  port_of (MkConfig (Some 0%float) None None None []) = 8000%float ∧
  port_of (MkConfig (Some nan) None None None []) = 8000%float ∧
  port_of (MkConfig (Some 3000%float) None None None []) = 3000%float.
Proof.
  split; [|split].
  - apply (proj1 (proj2 (one_port (λ _, None) (λ _, None) routes_only (λ _, Normal tt)
                           (MkConfig (Some 0%float) None None None []) loaded))
             0%float); reflexivity.
  - apply (proj1 (proj2 (one_port (λ _, None) (λ _, None) routes_only (λ _, Normal tt)
                           (MkConfig (Some nan) None None None []) loaded))
             nan); reflexivity.
  - apply (proj1 (proj2 (proj2 (one_port (λ _, None) (λ _, None) routes_only (λ _, Normal tt)
                                  (MkConfig (Some 3000%float) None None None [])
                                  loaded)))
             3000%float); reflexivity.
Defined.

(** X14. [apply] makes the dictionary [cfg.data] (empty when omitted),
    whatever its outcome, so a value seeded there is what the accessor
    returns, not the default. *)
Theorem seeded_data_is_served sqlite_open db_migrate app_register app_listen cfg w seed k v d :
  cfg_data cfg = Some seed → seed !! k = Some v → v ≠ VUndefined →
  w_data (apply sqlite_open db_migrate app_register app_listen cfg w).2 = seed ∧
  data_fn k d None (w_data (apply sqlite_open db_migrate app_register app_listen cfg w).2)
    = (Returned v, seed).
Proof.
  intros Hseed Hk Hv.
  assert (Hdata : w_data (apply sqlite_open db_migrate app_register app_listen cfg w).2 = seed).
  { by rewrite apply_sets_data, Hseed. }
  rewrite Hdata. split; [done|]. by apply data_fn_read.
Qed.

Lemma seeded_data_is_served_witness :
  let seed : Js.dict := {["motd" := VStr "hi"]} in
  let cfg := MkConfig None (Some seed) None None [] in
  w_data (apply (λ _, None) (λ _, None) routes_only (λ _, Normal tt) cfg loaded).2 = seed ∧
  data_fn "motd" (VStr "default") None
    (w_data (apply (λ _, None) (λ _, None) routes_only (λ _, Normal tt) cfg loaded).2)
    = (Returned (VStr "hi"), seed).
Proof.
  intros seed cfg.
  apply (seeded_data_is_served (λ _, None) (λ _, None) routes_only (λ _, Normal tt) cfg loaded
           seed "motd" (VStr "hi") (VStr "default"));
    first [reflexivity | discriminate].
Defined.

(** X15. A successful [apply] registers a route for a method and path
    exactly when the configuration declares that method under that path. *)
Theorem registers_exactly_declared sqlite_open db_migrate app_register app_listen cfg w m p :
  (apply sqlite_open db_migrate app_register app_listen cfg w).1 = Normal tt →
  AppRoute m p ∈ run_effects w (apply sqlite_open db_migrate app_register app_listen cfg w) ↔
  ∃ route h, (p, route) ∈ cfg_routes cfg ∧ (m, h) ∈ route.
Proof.
  intros Hok.
  destruct (apply_run sqlite_open db_migrate app_register app_listen cfg w)
    as (pre & rts & tl & Hrun & Hpre & _ & _ & _ & Hfull).
  destruct (Hfull Hok) as (_ & _ & -> & ->).
  rewrite Forall_forall in Hpre.
  rewrite Hrun, <- route_effects_declared, !elem_of_app. split.
  - intros [Hin|[Hin|Hin]]; [|done|].
    + destruct (Hpre _ Hin) as [Hr _]. by destruct Hr.
    + apply elem_of_cons in Hin as [Hin|Hin]; [discriminate|].
      apply list_elem_of_singleton in Hin. discriminate.
  - intros Hin. right. by left.
Qed.

Lemma registers_exactly_declared_witness :
  let cfg := MkConfig None None None None
               [("/hello", [("get", hello)]);
                ("/db", [("get", hello); ("post", hello)])] in
  AppRoute "post" "/db"
    ∈ run_effects loaded (apply (λ _, None) (λ _, None) routes_only (λ _, Normal tt) cfg loaded) ↔
  ∃ route h, (("/db", route) : string * list (string * Route)) ∈ cfg_routes cfg
             ∧ (("post", h) : string * Route) ∈ route.
Proof.
  intros cfg.
  apply (registers_exactly_declared (λ _, None) (λ _, None) routes_only (λ _, Normal tt)
           cfg loaded "post" "/db").
  reflexivity.
Defined.

(** ** More on the loopback client *)

Section includes_facts.

Lemma prefix_append n post : String.prefix n (n +:+ post) = true.
Proof.
  induction n as [|c n IH]; [by destruct post|].
  change (String.prefix (String c n) (String c (n +:+ post)) = true).
  simpl. by destruct (Ascii.ascii_dec c c).
Qed.

Lemma prefix_split n h : String.prefix n h = true → ∃ post, h = n +:+ post.
Proof.
  revert h. induction n as [|c n IH]; intros h Hp.
  - by exists h.
  - destruct h as [|c' h]; [done|]. simpl in Hp.
    destruct (Ascii.ascii_dec c c') as [<-|]; [|done].
    destruct (IH h Hp) as [post ->]. by exists post.
Qed.

Lemma includes_prefix n h : String.prefix n h = true → Js.includes n h = true.
Proof.
  intros Hp. destruct h as [|c h].
  - change (String.prefix n "" || false = true). by rewrite Hp.
  - change (String.prefix n (String c h) || Js.includes n h = true).
    by rewrite Hp.
Qed.

Lemma includes_inside pre n post : Js.includes n (pre +:+ n +:+ post) = true.
Proof.
  induction pre as [|c pre IH].
  - change (Js.includes n (n +:+ post) = true).
    apply includes_prefix, prefix_append.
  - change (Js.includes n (String c (pre +:+ n +:+ post)) = true).
    simpl. rewrite IH. apply orb_true_r.
Qed.

Lemma includes_split n h :
  Js.includes n h = true → ∃ pre post, h = pre +:+ n +:+ post.
Proof.
  induction h as [|c h IH]; intros Hin.
  - change (String.prefix n "" || false = true) in Hin.
    rewrite orb_false_r in Hin. destruct (prefix_split _ _ Hin) as [post Hpost].
    exists "", post. exact Hpost.
  - change (String.prefix n (String c h) || Js.includes n h = true) in Hin.
    apply orb_true_iff in Hin as [Hp|Hin].
    + destruct (prefix_split _ _ Hp) as [post ->]. by exists "", post.
    + destruct (IH Hin) as (pre & post & ->). by exists (String c pre), post.
Qed.

End includes_facts.



(** X17. The body of a response is parsed as JSON exactly when its
    content-type has [application/json] somewhere inside it, parameters such
    as a charset included; with any other content-type, or none, the body is
    handed back as text. *)
Theorem body_decoding_by_content_type JSON_parse resp :
  let typ := default "" (Loopback.resp_headers resp !! "content-type") in
  ((∃ pre post, typ = pre +:+ "application/json" +:+ post) →
   Loopback.handle_body JSON_parse resp = JSON_parse (Loopback.resp_body resp)) ∧
  (¬ (∃ pre post, typ = pre +:+ "application/json" +:+ post) →
   Loopback.handle_body JSON_parse resp
   = Fulfilled (VStr (Loopback.resp_body resp))) ∧
  (Loopback.resp_headers resp !! "content-type" = None →
   Loopback.handle_body JSON_parse resp
   = Fulfilled (VStr (Loopback.resp_body resp))).
Proof.
  intros typ. unfold Loopback.handle_body. fold typ. split; [|split].
  - intros (pre & post & ->). by rewrite includes_inside.
  - intros Hnot. destruct (Js.includes "application/json" typ) eqn:E; [|done].
    destruct Hnot. by apply includes_split.
  - intros Hnone. subst typ. by rewrite Hnone.
Qed.

Lemma body_decoding_by_content_type_witness :
  let parse : string → settled := λ _, Fulfilled (VObject [("a", VNum 1)]) in
  let resp := Loopback.MkResponse 200
                {["content-type" := "application/json; charset=utf-8"]} "{}" in
  Loopback.handle_body parse resp = parse (Loopback.resp_body resp).
Proof.
  intros parse resp.
  apply (proj1 (body_decoding_by_content_type parse resp)).
  by exists "", "; charset=utf-8".
Defined.

(** X18. The [fetch] that [apply] installs passes on the method and the
    body it is given and every header but one: it sets [user-agent] itself,
    over any the caller supplied, and never to the empty string. *)
Theorem installed_fetch_keeps_request this port path _init :
  Loopback.this_fetch this = Loopback.FetchInstalled port →
  let r := Loopback.fetch_request this path _init in
  (∃ i, Loopback.init r = Some i ∧
        Loopback.init_method i = from_option Loopback.init_method None _init ∧
        Loopback.init_body i = from_option Loopback.init_body None _init) ∧
  header r "user-agent" = Some (Loopback.user_agent this) ∧
  Loopback.user_agent this ≠ "" ∧
  ∀ name, name ≠ "user-agent" →
          header r name = header (Loopback.MkRequest path _init) name.
Proof.
  intros Hinst r. subst r. unfold Loopback.fetch_request. rewrite Hinst.
  split; [|split; [|split]].
  - eexists. split; [reflexivity|]. by destruct _init.
  - unfold header. simpl. apply lookup_insert_eq.
  - unfold Loopback.user_agent.
    destruct (Loopback.this_headers this ≫= _) as [ua|]; [|done].
    destruct (String.eqb_spec ua ""); done.
  - intros name Hname. unfold header. simpl.
    rewrite lookup_insert_ne by done.
    destruct _init as [[method [headers|] body]|]; done.
Qed.

Lemma installed_fetch_keeps_request_witness :
  let this := Loopback.MkReceiver (Loopback.FetchInstalled 8000)
                (Some {["user-agent" := ""]}) in
  let given := Some (Loopback.MkInit (Some "POST")
                       (Some {["user-agent" := "mine"; "Content-Type" := "text/plain"]})
                       (Some "x")) in
  header (Loopback.fetch_request this "/db" given) "user-agent"
  = Some (Loopback.user_agent this).
Proof.
  intros this given.
  apply (installed_fetch_keeps_request this 8000 "/db" given). reflexivity.
Defined.


(** ** More on the database attachment *)

(** X19. A limit or an offset that is falsy (omitted, 0, -0 or NaN) adds
    no clause: with neither, [dump_table] reads [SELECT * FROM <name>]; any
    other number as the limit alone gives [... LIMIT L] and as the offset
    alone [... OFFSET O], the number printed as the platform prints it. *)
Theorem dump_table_optional_clauses T (L O : float) limit offset :
  Js.truthy limit = false → Js.truthy offset = false →
  dump_table_sql T limit offset = Normal ("SELECT * FROM " +:+ T) ∧
  (Js.truthy (VNum L) = true →
   dump_table_sql T (VNum L) offset
     = Normal ("SELECT * FROM " +:+ T +:+ " LIMIT " +:+ Js.number_to_string L)) ∧
  (Js.truthy (VNum O) = true →
   dump_table_sql T limit (VNum O)
     = Normal ("SELECT * FROM " +:+ T +:+ " OFFSET " +:+ Js.number_to_string O)) ∧
  Js.truthy VUndefined = false ∧ Js.truthy (VNum 0) = false ∧
  Js.truthy (VNum (-0)) = false ∧ Js.truthy (VNum nan) = false.
Proof.
  intros Hlimit Hoffset. split; [|split; [|split]].
  - unfold dump_table_sql. by rewrite !add_clause_falsy.
  - intros HL. unfold dump_table_sql.
    rewrite add_clause_falsy by done. rewrite add_clause_number by done.
    by rewrite append_assoc.
  - intros HO. unfold dump_table_sql.
    rewrite add_clause_number by done. rewrite add_clause_falsy by done.
    by rewrite append_assoc.
  - repeat split; reflexivity.
Qed.

Lemma dump_table_optional_clauses_witness :
  dump_table_sql "Hello" (VNum 10) (VNum nan)
    = Normal ("SELECT * FROM " +:+ "Hello" +:+ " LIMIT " +:+ Js.number_to_string 10) ∧
  dump_table_sql "Hello" VUndefined (VNum 0.5)
    = Normal ("SELECT * FROM " +:+ "Hello" +:+ " OFFSET " +:+ Js.number_to_string 0.5).
Proof.
  split.
  - apply (proj1 (proj2 (dump_table_optional_clauses "Hello" 10 1
                           VUndefined (VNum nan) eq_refl eq_refl))).
    reflexivity.
  - apply (proj1 (proj2 (proj2 (dump_table_optional_clauses "Hello" 1 0.5
                                  VUndefined (VNum 0) eq_refl eq_refl)))).
    reflexivity.
Defined.

(** X20. [dump_table] runs one query, of the text it built; when the
    query resolves the rows go to [console.table] and nothing is returned,
    and when it rejects nothing is printed and the rejection comes out of
    [dump_table].  When the text cannot be built, no query is run. *)
Theorem dump_table_prints_or_fails db_all name limit offset w :
  match dump_table_sql name limit offset with
  | Normal sql =>
      match db_all sql with
      | Normal it =>
          dump_table db_all name limit offset w
          = (Normal tt, after w [DbAll sql; Console "table" it])
      | Throw e =>
          dump_table db_all name limit offset w = (Throw e, after w [DbAll sql])
      | Never =>
          dump_table db_all name limit offset w = (Never, after w [DbAll sql])
      end
  | Throw e => dump_table db_all name limit offset w = (Throw e, w)
  | Never => dump_table db_all name limit offset w = (Never, w)
  end.
Proof.
  rewrite dump_table_outcome.
  destruct (dump_table_sql name limit offset) as [sql|e|]; [|done..].
  by destruct (db_all sql).
Qed.

(** ** The routes of [src/main.ts] *)

(** X21. [GET /world] answers with the text that [GET /hello] returned,
    followed by [" world!"]: the handler fetches [/hello] through the request
    it was given, and the wrapped handler sends the concatenation as it is.
    [GET /hello] itself answers [Hello]. *)
Theorem world_appends_to_hello net JSON_parse cfg w req port resp :
  w_fetch w = Loopback.FetchInstalled port →
  net (Loopback.get_request
         (Loopback.MkReceiver (Loopback.FetchInstalled port) (Some (req_headers req)))
         "/hello") = Normal resp →
  Js.includes "application/json"
    (default "" (Loopback.resp_headers resp !! "content-type")) = false →
  apply_route cfg (hello_world net JSON_parse) req w
    = (Normal tt, after w [Res "end" (VStr (Loopback.resp_body resp +:+ " world!"))]) ∧
  apply_route cfg hello req w = (Normal tt, after w [Res "end" (VStr "Hello")]).
Proof.
  intros Hinst Hnet Htext. split.
  - rewrite (apply_route_yields cfg (hello_world net JSON_parse) req w
               (VStr (Loopback.resp_body resp +:+ " world!")) w); [done|].
    exists (VStr (Loopback.resp_body resp +:+ " world!")). split; [|done].
    unfold hello_world, augmented, as_receiver. simpl. rewrite Hinst.
    unfold Loopback.get. rewrite Hnet. simpl.
    unfold Loopback.handle_body. rewrite Htext.
    unfold Exec.bind, Exec.await, Exec.lift. simpl. by rewrite plus_string_left.
  - rewrite (apply_route_yields cfg hello req w (VStr "Hello") w); [done|].
    by exists (VStr "Hello").
Qed.

Lemma world_appends_to_hello_witness :
  let resp := Loopback.MkResponse 200 ∅ "Hello" in
  let net : Loopback.http_request → completion Loopback.Response := λ _, Normal resp in
  let parse : string → settled := λ _, Rejected (VError "SyntaxError" "") in
  let cfg := MkConfig None None None None [] in
  let w := World ∅ (Loopback.FetchInstalled 8000) [] in
  let req := Request ∅ VUndefined None None false in
  apply_route cfg (hello_world net parse) req w
    = (Normal tt, after w [Res "end" (VStr (Loopback.resp_body resp +:+ " world!"))]) ∧
  apply_route cfg hello req w = (Normal tt, after w [Res "end" (VStr "Hello")]).
Proof.
  intros resp net parse cfg w req.
  apply (world_appends_to_hello net parse cfg w req 8000 resp); reflexivity.
Defined.

(** X22. When the loopback call of [GET /world] fails, the failure is
    caught by the wrapped handler: it is logged and the caller of [/world]
    gets status 500 and the body ["Error! "] followed by the text of the
    reason; an [Error], which is what the platform's [fetch] rejects with,
    always has a text, [name: message].  Only a reason that cannot be turned
    into text leaves the wrapped handler, after the log line and the
    status. *)
Theorem world_reports_loopback_failure net JSON_parse cfg w req port e :
  w_fetch w = Loopback.FetchInstalled port →
  net (Loopback.get_request
         (Loopback.MkReceiver (Loopback.FetchInstalled port) (Some (req_headers req)))
         "/hello") = Throw e →
  apply_route cfg (hello_world net JSON_parse) req w
    = match Js.to_string e with
      | Normal text =>
          (Normal tt, after w [Console "error" e; Res "status" (VNum 500);
                               Res "send" (VStr ("Error! " +:+ text))])
      | Throw e' =>
          (Throw e', after w [Console "error" e; Res "status" (VNum 500)])
      | Never =>
          (Never, after w [Console "error" e; Res "status" (VNum 500)])
      end ∧
  ∀ name message,
    Js.to_string (VError name message) = Normal (Js.error_to_string name message).
Proof.
  intros Hinst Hnet. split; [|done].
  apply apply_route_fails. left.
  unfold hello_world, augmented, as_receiver. simpl. rewrite Hinst.
  unfold Loopback.get. rewrite Hnet. reflexivity.
Qed.

Lemma world_reports_loopback_failure_witness :
  let e := VError "TypeError" "fetch failed" in
  let net : Loopback.http_request → completion Loopback.Response := λ _, Throw e in
  let parse : string → settled := λ _, Rejected (VError "SyntaxError" "") in
  let cfg := MkConfig None None None None [] in
  let w := World ∅ (Loopback.FetchInstalled 8000) [] in
  let req := Request ∅ VUndefined None None false in
  apply_route cfg (hello_world net parse) req w
    = (Normal tt, after w [Console "error" e; Res "status" (VNum 500);
                           Res "send" (VStr "Error! TypeError: fetch failed")]).
Proof.
  intros e net parse cfg w req.
  apply (proj1 (world_reports_loopback_failure net parse cfg w req 8000 e
                  eq_refl eq_refl)).
Defined.

(** ** What a registered handler hands to the user handler *)



